(** * kidsCanDraw: the flood fill and the undo history of the drawing canvas

    A shallow embedding of [src/utils/floodFill.ts] and of the history,
    undo, initialisation and stroke code of [src/components/Canvas.tsx],
    with the properties the specification states about them.

    Conventions of the embedding.
    - A JavaScript number that the code computes is an integer or [NaN]; it is
      an [option Z], [None] standing for [NaN].  An array read that may be
      [undefined] is an [option Z] too ([undefined] turns into [NaN] as soon
      as the code does arithmetic on it, and is never [===] to a number).
    - [imageData.data] (a [Uint8ClampedArray]) and [seen] (a [Uint8Array]) are
      [list Z], read with [!!] and written with [<[_:=_]>]; a read out of
      range is [undefined], a write out of range is dropped, as typed arrays
      do.
    - The work stack is a list whose head is the END of the JavaScript array:
      [stack.push(p)] is [p :: stack], [stack.pop()] takes the head.
    - Strings hold ASCII characters, as the colours of the palette do, so that
      an index into a JavaScript string is an index into the Rocq string.
    - The browser is outside the repository: [floodFill] is embedded from the
      bytes that [getImageData] returned to the bytes that [putImageData]
      receives, and the drawing operations of the 2D context are the
      operations of the class [Canvas.Renderer]. *)

From Stdlib Require Import ZArith QArith Qround String Ascii List Lia Permutation.
From stdpp Require Import base list.

Open Scope Z_scope.

(** ** JavaScript values used by the code *)

Module JS.

(** [None] is [NaN]. *)
Definition Num := option Z.

Definition sub (a b : Num) : Num :=
  match a, b with Some x, Some y => Some (x - y) | _, _ => None end.

Definition mul (a b : Num) : Num :=
  match a, b with Some x, Some y => Some (x * y) | _, _ => None end.

Definition add (a b : Num) : Num :=
  match a, b with Some x, Some y => Some (x + y) | _, _ => None end.

(** [a < k]: false as soon as [a] is [NaN]. *)
Definition lt (a : Num) (k : Z) : bool :=
  match a with Some x => x <? k | None => false end.

(** [a === b] where [a] was read from an array (a number or [undefined]) and
    [b] is a number or [NaN]: true only for two equal numbers. *)
Definition strictEq (a : option Z) (b : Num) : bool :=
  match a, b with Some x, Some y => x =? y | _, _ => false end.

(** Conversion of a number stored into a [Uint8ClampedArray]. *)
Definition toUint8Clamp (v : Num) : Z :=
  match v with
  | None => 0
  | Some x => Z.max 0 (Z.min 255 x)
  end.

(** [arr[i]] on a typed array. *)
Definition get (arr : list Z) (i : Z) : option Z :=
  if i <? 0 then None else arr !! Z.to_nat i.

(** [arr[i] = v] on a typed array ([v] already converted). *)
Definition set (arr : list Z) (i : Z) (v : Z) : list Z :=
  if i <? 0 then arr else <[Z.to_nat i := v]> arr.

(** [s.replace('#', '')]: only the first occurrence is removed. *)
Fixpoint replaceHash (s : string) : string :=
  match s with
  | EmptyString => EmptyString
  | String c s' => if Ascii.eqb c "#" then s' else String c (replaceHash s')
  end.

(** [s.substring(i, j)] for [i <= j]. *)
Definition substring (i j : nat) (s : string) : string :=
  String.substring i (j - i) s.

Definition isWhiteSpace (c : ascii) : bool :=
  let n := nat_of_ascii c in
  ((9 <=? n)%nat && (n <=? 13)%nat) || (n =? 32)%nat.

Fixpoint trimStart (s : string) : string :=
  match s with
  | String c s' => if isWhiteSpace c then trimStart s' else s
  | EmptyString => EmptyString
  end.

Definition hexDigit (c : ascii) : option Z :=
  let n := nat_of_ascii c in
  if ((48 <=? n) && (n <=? 57))%nat then Some (Z.of_nat n - 48)
  else if ((97 <=? n) && (n <=? 102))%nat then Some (Z.of_nat n - 87)
  else if ((65 <=? n) && (n <=? 70))%nat then Some (Z.of_nat n - 55)
  else None.

(** Value of the longest prefix of hexadecimal digits; [acc] is the value
    read so far ([None] when no digit has been read). *)
Fixpoint hexPrefix (s : string) (acc : option Z) : option Z :=
  match s with
  | String c s' =>
      match hexDigit c with
      | Some d => hexPrefix s' (Some (16 * default 0 acc + d))
      | None => acc
      end
  | EmptyString => acc
  end.

(** [parseInt(s, 16)]: leading white space, a sign, a [0x] prefix, then the
    longest run of hexadecimal digits; [NaN] when that run is empty. *)
Definition parseInt16 (s : string) : Num :=
  let s1 := trimStart s in
  let '(sign, s2) :=
    match s1 with
    | String "-" t => (-1, t)
    | String "+" t => (1, t)
    | _ => (1, s1)
    end in
  let s3 :=
    match s2 with
    | String "0" (String "x" t) => t
    | String "0" (String "X" t) => t
    | _ => s2
    end in
  option_map (Z.mul sign) (hexPrefix s3 None).

End JS.

(** ** [src/utils/floodFill.ts] *)

Module FloodFill.

(** The coordinates on the work stack. *)
Definition Stack := list (Z * Z).

(** Step 2 of [floodFill]: the three channels parsed from the hex string. *)
Definition parseFill (fillColorHex : string) : JS.Num * JS.Num * JS.Num :=
  let hex := JS.replaceHash fillColorHex in
  let r := JS.parseInt16 (JS.substring 0 2 hex) in
  let g := JS.parseInt16 (JS.substring 2 4 hex) in
  let b := JS.parseInt16 (JS.substring 4 6 hex) in
  (r, g, b).

(** What the loop reads and writes: the pixel bytes, the visited markers and
    the work stack. *)
Record LoopState := mkLoop {
  data : list Z;
  seen : list Z;
  stack : Stack
}.

(** What one iteration of the [while] loop did: which of its branches ran.
    [Filled i] is the branch that executes [seen[i] = 1]. *)
Inductive Outcome :=
| OutOfBounds
| AlreadySeen
| NoMatch
| Filled (pixelIndex : Z).

(** The four [stack.push] calls of the source, in the source's order: right,
    left, down, up.  The last one pushed is the next one popped. *)
Definition pushNeighbors (x y : Z) (stack : Stack) : Stack :=
  let stack := (x + 1, y) :: stack in
  let stack := (x - 1, y) :: stack in
  let stack := (x, y + 1) :: stack in
  let stack := (x, y - 1) :: stack in
  stack.

(** The same pushes in an arbitrary order, given as a list of offsets. *)
Definition pushInOrder (order : list (Z * Z)) (x y : Z) (stack : Stack) : Stack :=
  fold_left (fun s d => (x + fst d, y + snd d) :: s) order stack.

Definition sourceOrder : list (Z * Z) := [(1, 0); (-1, 0); (0, 1); (0, -1)].

Section Fill.

Variables width height : Z.
(** The reference colour read at the seed (each channel possibly
    [undefined]) and the fill colour. *)
Variables startR startG startB startA : option Z.
Variables r g b a : JS.Num.
(** How the neighbours of a filled pixel are pushed. *)
Variable push : Z -> Z -> Stack -> Stack.

Definition matchColor (data : list Z) (pos : Z) : bool :=
  let dr := JS.sub (JS.get data pos) startR in
  let dg := JS.sub (JS.get data (pos + 1)) startG in
  let db := JS.sub (JS.get data (pos + 2)) startB in
  let da := JS.sub (JS.get data (pos + 3)) startA in
  JS.lt (JS.add (JS.add (JS.add (JS.mul dr dr) (JS.mul dg dg)) (JS.mul db db))
                (JS.mul da da))
        12000.

Definition colorPixel (data : list Z) (pos : Z) : list Z :=
  let data := JS.set data pos (JS.toUint8Clamp r) in
  let data := JS.set data (pos + 1) (JS.toUint8Clamp g) in
  let data := JS.set data (pos + 2) (JS.toUint8Clamp b) in
  let data := JS.set data (pos + 3) (JS.toUint8Clamp a) in
  data.

(** [seen[pixelIndex]] as a condition: a non-zero byte. *)
Definition isSeen (seen : list Z) (pixelIndex : Z) : bool :=
  match JS.get seen pixelIndex with
  | Some v => negb (v =? 0)
  | None => false
  end.

(** The body of the [while] loop, after [stack.pop()] returned [(x, y)] and
    left [st] (whose stack is the rest). *)
Definition loopBody (x y : Z) (st : LoopState) : LoopState * Outcome :=
  let pixelIndex := y * width + x in
  let pos := pixelIndex * 4 in
  if (x <? 0) || (x >=? width) || (y <? 0) || (y >=? height) then (st, OutOfBounds)
  else if isSeen (seen st) pixelIndex then (st, AlreadySeen)
  else if matchColor (data st) pos then
    (mkLoop (colorPixel (data st) pos)
            (JS.set (seen st) pixelIndex 1)
            (push x y (stack st)),
     Filled pixelIndex)
  else (st, NoMatch).

(** [while (stack.length > 0) { ... }], at most [fuel] iterations; the
    second component lists what each iteration did, in order.  [None]: the
    stack is not empty after [fuel] iterations. *)
Fixpoint runLoop (fuel : nat) (st : LoopState) : option (LoopState * list Outcome) :=
  match stack st with
  | [] => Some (st, [])
  | (x, y) :: rest =>
      match fuel with
      | O => None
      | S fuel' =>
          let '(st1, o) := loopBody x y (mkLoop (data st) (seen st) rest) in
          match runLoop fuel' st1 with
          | Some (st', log) => Some (st', o :: log)
          | None => None
          end
      end
  end.

End Fill.

(** How a call of [floodFill] went: it returned at the "same colour" test, or
    ran the loop to the end (final state and what each iteration did), or the
    loop was still running after [fuel] iterations. *)
Inductive Run :=
| SameColor
| Looped (st : LoopState) (log : list Outcome)
| OutOfFuel.

(** The body of [floodFill] on [data], the bytes [getImageData] returned
    (4 bytes for each of the [width * height] pixels of the canvas). *)
Definition floodFillRun (push : Z -> Z -> Stack -> Stack) (fuel : nat)
    (data : list Z) (startX startY : Z) (fillColorHex : string)
    (width height : Z) : Run :=
  let '(r, g, b) := parseFill fillColorHex in
  let a : JS.Num := Some 255 in
  let startPos := (startY * width + startX) * 4 in
  let startR := JS.get data startPos in
  let startG := JS.get data (startPos + 1) in
  let startB := JS.get data (startPos + 2) in
  let startA := JS.get data (startPos + 3) in
  if JS.strictEq startR r && JS.strictEq startG g && JS.strictEq startB b
     && JS.strictEq startA a
  then SameColor
  else
    let stack := [(startX, startY)] in
    let seen := replicate (Z.to_nat (width * height)) 0 in
    match runLoop width height startR startG startB startA r g b a push
                  fuel (mkLoop data seen stack) with
    | Some (st, log) => Looped st log
    | None => OutOfFuel
    end.

(** What the canvas holds after the call: the bytes given to [putImageData],
    or the bytes it had when the function returned early.  [None]: the loop
    did not finish within [fuel] iterations. *)
Definition floodFillWith (push : Z -> Z -> Stack -> Stack) (fuel : nat)
    (data : list Z) (startX startY : Z) (fillColorHex : string)
    (width height : Z) : option (list Z) :=
  match floodFillRun push fuel data startX startY fillColorHex width height with
  | SameColor => Some data
  | Looped st _ => Some (FloodFill.data st)
  | OutOfFuel => None
  end.

(** A number of iterations that always suffices: one pop for the seed and
    four for each pixel of the grid (see [runLoop_terminates]). *)
Definition enoughFuel (width height : Z) : nat :=
  S (4 * Z.to_nat (width * height)).

Definition floodFill (data : list Z) (startX startY : Z) (fillColorHex : string)
    (width height : Z) : option (list Z) :=
  floodFillWith pushNeighbors (enoughFuel width height)
                data startX startY fillColorHex width height.

(** *** Words of the specification *)

(** The pixel with linear index [i]: its four channels. *)
Definition pixelAt (data : list Z) (i : Z) : option (Z * Z * Z * Z) :=
  match JS.get data (i * 4), JS.get data (i * 4 + 1),
        JS.get data (i * 4 + 2), JS.get data (i * 4 + 3) with
  | Some p0, Some p1, Some p2, Some p3 => Some (p0, p1, p2, p3)
  | _, _, _, _ => None
  end.

(** Squared Euclidean distance over the four channels. *)
Definition sqDist (p q : Z * Z * Z * Z) : Z :=
  let '(p0, p1, p2, p3) := p in
  let '(q0, q1, q2, q3) := q in
  (p0 - q0) * (p0 - q0) + (p1 - q1) * (p1 - q1)
  + (p2 - q2) * (p2 - q2) + (p3 - q3) * (p3 - q3).

Definition inBounds (width height x y : Z) : Prop :=
  0 <= x < width /\ 0 <= y < height.

(** Axis-aligned neighbours. *)
Definition adjacent4 (x y x' y' : Z) : Prop :=
  Z.abs (x' - x) + Z.abs (y' - y) = 1.

(** The pixels whose colour in [data] is within the tolerance of the colour
    [ref]. *)
Definition similar (data : list Z) (ref : Z * Z * Z * Z) (width : Z) (x y : Z) : Prop :=
  exists p, pixelAt data (y * width + x) = Some p /\ sqDist p ref < 12000.

(** The 4-connected region of the seed in the grid: what is reached from the
    seed by steps to an adjacent pixel of the grid that satisfies [ok] (the
    seed itself only has to lie in the grid). *)
Inductive Region (width height sx sy : Z) (ok : Z -> Z -> Prop)
  : Z -> Z -> Prop :=
| region_seed :
    inBounds width height sx sy ->
    Region width height sx sy ok sx sy
| region_step x y x' y' :
    Region width height sx sy ok x y ->
    adjacent4 x y x' y' ->
    inBounds width height x' y' ->
    ok x' y' ->
    Region width height sx sy ok x' y'.

(** The marker indices of a log: the pixels an iteration marked visited. *)
Fixpoint marked (log : list Outcome) : list Z :=
  match log with
  | [] => []
  | Filled i :: log' => i :: marked log'
  | _ :: log' => marked log'
  end.

(** A channel value. *)
Definition isByte (v : Z) : Prop := 0 <= v <= 255.

(** A 2 x 2 canvas for examples: white, black / white, white. *)
Definition sample : list Z :=
  [255; 255; 255; 255;  0; 0; 0; 255;
   255; 255; 255; 255;  255; 255; 255; 255].

(** The buffers of the concrete scenarios of the specification: a 10 x 10
    white canvas, and a 10 x 10 canvas whose columns 0..4 are near-white,
    5..7 black and 8..9 white. *)
Definition white10 : list Z := replicate 400 255.

Definition splitRow : list Z :=
  concat (replicate 5 [250; 250; 250; 255] ++ replicate 3 [0; 0; 0; 255]
          ++ replicate 2 [255; 255; 255; 255]).

Definition split10 : list Z := concat (replicate 10 splitRow).

Definition splitRowFilled : list Z :=
  concat (replicate 5 [255; 0; 0; 255] ++ replicate 3 [0; 0; 0; 255]
          ++ replicate 2 [255; 255; 255; 255]).

(** *** Words of the proofs *)

(** The test of the early return of [floodFill], for the reference colour
    read at [startPos]. *)
Definition sameColor (data : list Z) (startPos : Z) (r g b : JS.Num) : bool :=
  JS.strictEq (JS.get data startPos) r
  && JS.strictEq (JS.get data (startPos + 1)) g
  && JS.strictEq (JS.get data (startPos + 2)) b
  && JS.strictEq (JS.get data (startPos + 3)) (Some 255).

(** Number of unmarked entries of the marker array. *)
Fixpoint unseen (seen : list Z) : nat :=
  match seen with
  | [] => 0
  | v :: seen' => Nat.add (if v =? 0 then 1%nat else 0%nat) (unseen seen')
  end.

(** The neighbours that a filled pixel puts on the stack. *)
Definition neighbors4 (x y : Z) : list (Z * Z) :=
  [(x + 1, y); (x - 1, y); (x, y + 1); (x, y - 1)].

(** A way of pushing the neighbours is admissible when it puts exactly the
    four neighbours, in some order, on top of the stack. *)
Definition pushesNeighbors (push : Z -> Z -> Stack -> Stack) : Prop :=
  forall x y s, exists ns, push x y s = ns ++ s /\ Permutation ns (neighbors4 x y).

Section Vocabulary.

Variables W H : Z.
Variables startR startG startB startA : option Z.
Variables r g b a : JS.Num.
Variable orig : list Z.
Variables sx sy : Z.

(** The four bytes [colorPixel] writes. *)
Definition fillPixel : Z * Z * Z * Z :=
  (JS.toUint8Clamp r, JS.toUint8Clamp g, JS.toUint8Clamp b, JS.toUint8Clamp a).

(** The reference colour, when all four channels were read. *)
Definition refPixel : option (Z * Z * Z * Z) :=
  match startR, startG, startB, startA with
  | Some s0, Some s1, Some s2, Some s3 => Some (s0, s1, s2, s3)
  | _, _, _, _ => None
  end.

(** The pixel matched the reference colour before the call. *)
Definition okOrig (x y : Z) : Prop :=
  matchColor startR startG startB startA orig ((y * W + x) * 4) = true.

(** The invariant of the [while] loop, for a call on the buffer [orig] with
    the seed [(sx, sy)]: the marked pixels hold the fill colour, the others
    are as in [orig]; marked pixels and matching coordinates of the stack
    are in the region; a matching neighbour of a marked pixel is marked or
    on the stack; so is the seed. *)
Record Inv (st : LoopState) : Prop := mkInv {
  inv_data_length : length (data st) = length orig;
  inv_seen_length : length (seen st) = Z.to_nat (W * H);
  inv_seen_bit : forall i v, JS.get (seen st) i = Some v -> v = 0 \/ v = 1;
  inv_painted : forall i, 0 <= i < W * H ->
    JS.get (seen st) i = Some 1 -> pixelAt (data st) i = Some fillPixel;
  inv_untouched : forall i, 0 <= i < W * H ->
    JS.get (seen st) i = Some 0 -> pixelAt (data st) i = pixelAt orig i;
  inv_seen_region : forall x y, inBounds W H x y ->
    JS.get (seen st) (y * W + x) = Some 1 -> Region W H sx sy okOrig x y;
  inv_stack_region : forall x y, In (x, y) (stack st) ->
    inBounds W H x y -> okOrig x y -> Region W H sx sy okOrig x y;
  inv_closed : forall x y x' y', inBounds W H x y ->
    JS.get (seen st) (y * W + x) = Some 1 ->
    adjacent4 x y x' y' -> inBounds W H x' y' -> okOrig x' y' ->
    JS.get (seen st) (y' * W + x') = Some 1 \/ In (x', y') (stack st);
  inv_seed : inBounds W H sx sy ->
    JS.get (seen st) (sy * W + sx) = Some 1 \/ In (sx, sy) (stack st)
}.

End Vocabulary.

Arguments inv_data_length {W H startR startG startB startA r g b a orig sx sy} st _.
Arguments inv_seen_length {W H startR startG startB startA r g b a orig sx sy} st _.
Arguments inv_seen_bit {W H startR startG startB startA r g b a orig sx sy} st _.
Arguments inv_painted {W H startR startG startB startA r g b a orig sx sy} st _.
Arguments inv_untouched {W H startR startG startB startA r g b a orig sx sy} st _.
Arguments inv_seen_region {W H startR startG startB startA r g b a orig sx sy} st _.
Arguments inv_stack_region {W H startR startG startB startA r g b a orig sx sy} st _.
Arguments inv_closed {W H startR startG startB startA r g b a orig sx sy} st _.
Arguments inv_seed {W H startR startG startB startA r g b a orig sx sy} st _.

End FloodFill.

(** ** [src/types.ts] and [src/components/Canvas.tsx] *)

Module Canvas.

Inductive ToolType := PENCIL | BRUSH | ERASER | BUCKET.

Definition isEraser (t : ToolType) : bool :=
  match t with ERASER => true | _ => false end.

Definition isBucket (t : ToolType) : bool :=
  match t with BUCKET => true | _ => false end.

(** A pointer position relative to the canvas; not integral in general. *)
Record Point := mkPoint { px : Q; py : Q }.

Inductive LineStyle := round.

(** The settings and the path with which [draw] calls [ctx.stroke()]. *)
Record Segment := mkSegment {
  moveTo : Point;
  lineTo : Point;
  strokeStyle : string;
  lineWidth : Z;
  lineCap : LineStyle;
  lineJoin : LineStyle
}.

(** The 2D context of the browser, as far as the component uses it: each
    operation maps the bitmap of a [w] x [h] canvas to the new bitmap. *)
Class Renderer := {
  (** a decoded image ([HTMLImageElement] after [onload]) *)
  Image : Type;
  (** [ctx.fillStyle = style; ctx.fillRect(0, 0, w, h)] *)
  fillRect : string -> Z -> Z -> list Z -> list Z;
  (** [ctx.drawImage(img, 0, 0)] *)
  drawImage : Image -> Z -> Z -> list Z -> list Z;
  (** the scaled and centred [ctx.drawImage(img, x, y, w', h')] of the import *)
  drawImageFit : Image -> Z -> Z -> list Z -> list Z;
  (** [beginPath(); moveTo; lineTo; ...; stroke()] *)
  stroke : Segment -> Z -> Z -> list Z -> list Z
}.

(** The fill style of the initialisation and of "clear". *)
Definition background : string := "#ffffff".

(** The canvas element and the refs and state of the component, once it is
    mounted: [canvasRef.current] and its 2D context are there, so the tests
    [canvas && ctx] of the handlers and effects succeed.  [pixels] is the
    bitmap; a snapshot in [history] is the [data] of an [ImageData] of the
    whole canvas, whose size never changes after [mount].  The copy of the
    canvas kept in [localStorage] is not part of the state. *)
Record State := mkState {
  width : Z;
  height : Z;
  pixels : list Z;
  isDrawing : bool;
  lastPos : option Point;
  history : list (list Z);
  prevTriggerUndo : Z
}.

Definition setPixels (p : list Z) (st : State) : State :=
  mkState (width st) (height st) p (isDrawing st) (lastPos st) (history st)
          (prevTriggerUndo st).

Definition setHistory (h : list (list Z)) (st : State) : State :=
  mkState (width st) (height st) (pixels st) (isDrawing st) (lastPos st) h
          (prevTriggerUndo st).

Definition setDrawing (d : bool) (lp : option Point) (st : State) : State :=
  mkState (width st) (height st) (pixels st) d lp (history st)
          (prevTriggerUndo st).

Definition setPrevTriggerUndo (t : Z) (st : State) : State :=
  mkState (width st) (height st) (pixels st) (isDrawing st) (lastPos st)
          (history st) t.

(** [ctx.getImageData(0, 0, canvas.width, canvas.height)] *)
Definition getImageData (st : State) : list Z := pixels st.

(** [ctx.putImageData(snapshot, 0, 0)] for a snapshot of the whole canvas. *)
Definition putImageData (snapshot : list Z) (st : State) : State :=
  setPixels snapshot st.

(** The updater of [saveHistory]: append, then drop the oldest entry when
    there are more than 20. *)
Definition pushSnapshot (prev : list (list Z)) (currentData : list Z)
  : list (list Z) :=
  let newHist := prev ++ [currentData] in
  if (20 <? length newHist)%nat then tail newHist else newHist.

Section Component.

Context {browser : Renderer}.

(** [saveHistory] (the write to [localStorage] changes nothing here). *)
Definition saveHistory (st : State) : State :=
  let currentData := getImageData st in
  setHistory (pushSnapshot (history st) currentData) st.

(** The component as first rendered ([useState([])], the refs) followed by
    the "Initialize canvas" effect, for a container of [w] x [h] pixels.
    With a saved canvas the effect only starts loading the image:
    [initOnload] runs later, when (and if) the image has loaded. *)
Definition mount (w h : Z) (triggerUndo : Z) (savedCanvas : bool) : State :=
  let st := mkState w h (replicate (Z.to_nat (w * h * 4)) 0) false None []
                    triggerUndo in
  let st := setPixels (fillRect background w h (pixels st)) st in
  if savedCanvas then st
  else
    let initialData := getImageData st in
    setHistory [initialData] st.

(** [img.onload] of the initialisation. *)
Definition initOnload (img : Image) (st : State) : State :=
  let st := setPixels (drawImage img (width st) (height st) (pixels st)) st in
  let currentData := getImageData st in
  setHistory [currentData] st.

(** The "Handle Clear" effect. *)
Definition clearEffect (triggerClear : Z) (st : State) : State :=
  if triggerClear =? 0 then st
  else
    let st := setPixels (fillRect background (width st) (height st) (pixels st)) st in
    saveHistory st.

(** The "Handle Undo" effect, run with the current value of the
    [triggerUndo] prop. *)
Definition undoEffect (triggerUndo : Z) (st : State) : State :=
  if (triggerUndo =? 0) || (triggerUndo =? prevTriggerUndo st) then st
  else
    let st := setPrevTriggerUndo triggerUndo st in
    if (1 <? length (history st))%nat then
      let newHistory := removelast (history st) in
      match last newHistory with
      | Some previousState =>
          let st := putImageData previousState st in
          setHistory newHistory st
      | None => st
      end
    else st.

(** [img.onload] of the "Handle Imported Image" effect. *)
Definition importOnload (img : Image) (st : State) : State :=
  let st := setPixels (fillRect background (width st) (height st) (pixels st)) st in
  let st := setPixels (drawImageFit img (width st) (height st) (pixels st)) st in
  saveHistory st.

(** The path and the context settings of [draw]: [moveTo(start)],
    [lineTo(end)], [strokeStyle], [lineWidth], [lineCap], [lineJoin]. *)
Definition drawSettings (tool : ToolType) (color : string) (brushSize : Z)
    (start end_ : Point) : Segment :=
  mkSegment start end_
            (if isEraser tool then "#ffffff"%string else color)
            brushSize round round.

Definition draw (tool : ToolType) (color : string) (brushSize : Z)
    (start end_ : Point) (st : State) : State :=
  let seg := drawSettings tool color brushSize start end_ in
  setPixels (stroke seg (width st) (height st) (pixels st)) st.

(** [startDrawing]; [primary] is false for a [mousedown] of another button
    than the main one. *)
Definition startDrawing (primary : bool) (tool : ToolType) (color : string)
    (brushSize : Z) (pos : Point) (st : State) : State :=
  if negb primary then st
  else if isBucket tool then
    let filled :=
      FloodFill.floodFill (getImageData st) (Qfloor (px pos)) (Qfloor (py pos))
                          color (width st) (height st) in
    let st := match filled with Some d => putImageData d st | None => st end in
    saveHistory st
  else
    let st := setDrawing true (Some pos) st in
    draw tool color brushSize pos pos st.

Definition handleMove (tool : ToolType) (color : string) (brushSize : Z)
    (newPos : Point) (st : State) : State :=
  match isDrawing st, lastPos st with
  | true, Some lp =>
      if isBucket tool then st
      else
        let st := draw tool color brushSize lp newPos st in
        setDrawing (isDrawing st) (Some newPos) st
  | _, _ => st
  end.

Definition stopDrawing (st : State) : State :=
  if isDrawing st then
    let st := setDrawing false None st in
    saveHistory st
  else st.

(** What can happen to a mounted canvas. *)
Inductive Event :=
| PointerDown (primary : bool) (tool : ToolType) (color : string)
              (brushSize : Z) (pos : Point)
| PointerMove (tool : ToolType) (color : string) (brushSize : Z) (pos : Point)
| PointerUp
| ClearTrigger (triggerClear : Z)
| UndoTrigger (triggerUndo : Z)
| ImportLoaded (img : Image)
| SavedLoaded (img : Image).

Definition step (st : State) (e : Event) : State :=
  match e with
  | PointerDown primary tool color brushSize pos =>
      startDrawing primary tool color brushSize pos st
  | PointerMove tool color brushSize pos => handleMove tool color brushSize pos st
  | PointerUp => stopDrawing st
  | ClearTrigger t => clearEffect t st
  | UndoTrigger t => undoEffect t st
  | ImportLoaded img => importOnload img st
  | SavedLoaded img => initOnload img st
  end.

Definition run (st : State) (events : list Event) : State :=
  fold_left step events st.

(** [handleUndo] of [App.tsx] followed by the undo effect: the trigger is
    incremented, and the effect runs with the new value. *)
Definition pressUndo (app : Z * State) : Z * State :=
  let triggerUndo := fst app + 1 in
  (triggerUndo, undoEffect triggerUndo (snd app)).

(** A committed gesture that leaves [p] on the canvas. *)
Definition commit (st : State) (p : list Z) : State :=
  saveHistory (setPixels p st).

End Component.

(** A renderer to run the component on examples: [fillRect] paints every
    pixel opaque white whatever the style, [drawImage] replaces the bitmap by
    the image (a bitmap of the same size), a stroke paints nothing. *)
Definition plainRenderer : Renderer := {|
  Image := list Z;
  fillRect := fun _ w h _ => replicate (Z.to_nat (w * h * 4)) 255;
  drawImage := fun img _ _ _ => img;
  drawImageFit := fun img _ _ _ => img;
  stroke := fun _ _ _ p => p
|}.

(** 25 different bitmaps of a 1 x 1 canvas, for examples. *)
Definition snaps25 : list (list Z) :=
  map (fun n => [Z.of_nat n; Z.of_nat n; Z.of_nat n; 255]) (seq 1 25).

End Canvas.

(** ** Gestures on the canvas: how the handlers of [Canvas.tsx] are used *)

Module Gesture.

Import Canvas.

Section Gestures.

Context {browser : Renderer}.

(** The calls of [draw] made by the moves of a stroke that is at [from]:
    each move draws from the last position to the new one. *)
Fixpoint moveSegments (tool : ToolType) (color : string) (brushSize : Z)
    (from : Point) (moves : list Point) : list Segment :=
  match moves with
  | [] => []
  | p :: moves' =>
      drawSettings tool color brushSize from p
      :: moveSegments tool color brushSize p moves'
  end.

(** The calls of [draw] of a whole stroke: the dot of [startDrawing], then
    the moves. *)
Definition strokeSegments (tool : ToolType) (color : string) (brushSize : Z)
    (p0 : Point) (moves : list Point) : list Segment :=
  drawSettings tool color brushSize p0 p0
  :: moveSegments tool color brushSize p0 moves.

(** [ctx.stroke()] for each of the segments, in order. *)
Definition strokeAll (segs : list Segment) (w h : Z) (p : list Z) : list Z :=
  fold_left (fun p seg => stroke seg w h p) segs p.

(** What the user does between two states of rest, as the events the canvas
    receives: a stroke (button down, moves, button up), a click with the
    bucket, a confirmed "clear", an imported image that has loaded. *)
Inductive Gesture :=
| Stroke (tool : ToolType) (color : string) (brushSize : Z) (p0 : Point)
         (moves : list Point)
| BucketClick (color : string) (brushSize : Z) (pos : Point)
| Clear (triggerClear : Z)
| Import (img : Image).

Definition gestureEvents (g : Gesture) : list Event :=
  match g with
  | Stroke tool color brushSize p0 moves =>
      PointerDown true tool color brushSize p0
      :: map (PointerMove tool color brushSize) moves ++ [PointerUp]
  | BucketClick color brushSize pos => [PointerDown true BUCKET color brushSize pos]
  | Clear t => [ClearTrigger t]
  | Import img => [ImportLoaded img]
  end.

(** A stroke is made with a drawing tool; the clear effect does its work for
    a trigger other than 0 (the value at the first render). *)
Definition wellFormed (g : Gesture) : Prop :=
  match g with
  | Stroke tool _ _ _ _ => tool <> BUCKET
  | Clear t => t <> 0
  | _ => True
  end.

(** The pointer events that arrive outside a stroke: a move, a release (or
    the pointer leaving the canvas), a press of another button than the main
    one. *)
Definition strayEvent (e : Event) : Prop :=
  match e with
  | PointerMove _ _ _ _ => True
  | PointerUp => True
  | PointerDown false _ _ _ _ => True
  | _ => False
  end.

(** The component is at rest, and its history, if any, ends with the
    canvas. *)
Definition settled (st : State) : Prop :=
  isDrawing st = false ->
  history st = [] \/ last (history st) = Some (pixels st).

End Gestures.

End Gesture.

(** ** [src/App.tsx]: the state of the application and its handlers *)

Module App.

Import Canvas.

(** [DrawingState] of [types.ts]. *)
Record DrawingState := mkDrawingState {
  color : string;
  tool : ToolType;
  brushSize : Z
}.

(** The state used when nothing was saved. *)
Definition defaultDrawingState : DrawingState :=
  mkDrawingState "#000000" PENCIL 5.

Definition handleToolChange (tool : ToolType) (prev : DrawingState) : DrawingState :=
  mkDrawingState (color prev) tool (brushSize prev).

Definition handleColorChange (color : string) (prev : DrawingState) : DrawingState :=
  mkDrawingState color (App.tool prev) (brushSize prev).

Definition handleSizeChange (size : Z) (prev : DrawingState) : DrawingState :=
  mkDrawingState (color prev) (App.tool prev) size.

(** The state of [App] that reaches the canvas, and the canvas component
    it renders. *)
Record AppState := mkApp {
  drawingState : DrawingState;
  triggerClear : Z;
  triggerUndo : Z;
  surface : State
}.

Section App.

Context {browser : Renderer}.

(** What happens to the application.  [UndoEffectRerun] is React running the
    "Handle Undo" effect again because [history], one of its dependencies,
    has changed. *)
Inductive Action :=
| ToolChange (tool : ToolType)
| ColorChange (color : string)
| SizeChange (size : Z)
| ClearClick (confirmed : bool)
| UndoClick
| MouseDown (primary : bool) (pos : Point)
| MouseMove (pos : Point)
| MouseUp
| ImportedImageLoaded (img : Image)
| SavedImageLoaded (img : Image)
| UndoEffectRerun.

(** The first render of [App] and of the canvas, for a container of [w] x
    [h] pixels; [d] is the drawing state that the initialiser of [useState]
    gave (the saved one or the default). *)
Definition start (w h : Z) (d : DrawingState) (savedCanvas : bool) : AppState :=
  mkApp d 0 0 (mount w h 0 savedCanvas).

(** The handler of the action, followed by the effect of the canvas whose
    trigger it changed; the pointer handlers use the tool, colour and size of
    the last render. *)
Definition act (app : AppState) (a : Action) : AppState :=
  let d := drawingState app in
  let c := surface app in
  match a with
  | ToolChange t =>
      mkApp (handleToolChange t d) (triggerClear app) (triggerUndo app) c
  | ColorChange col =>
      mkApp (handleColorChange col d) (triggerClear app) (triggerUndo app) c
  | SizeChange n =>
      mkApp (handleSizeChange n d) (triggerClear app) (triggerUndo app) c
  | ClearClick confirmed =>
      if confirmed then
        let t := triggerClear app + 1 in
        mkApp d t (triggerUndo app) (clearEffect t c)
      else app
  | UndoClick =>
      let t := triggerUndo app + 1 in
      mkApp d (triggerClear app) t (undoEffect t c)
  | MouseDown primary pos =>
      mkApp d (triggerClear app) (triggerUndo app)
            (startDrawing primary (App.tool d) (color d) (brushSize d) pos c)
  | MouseMove pos =>
      mkApp d (triggerClear app) (triggerUndo app)
            (handleMove (App.tool d) (color d) (brushSize d) pos c)
  | MouseUp =>
      mkApp d (triggerClear app) (triggerUndo app) (stopDrawing c)
  | ImportedImageLoaded img =>
      mkApp d (triggerClear app) (triggerUndo app) (importOnload img c)
  | SavedImageLoaded img =>
      mkApp d (triggerClear app) (triggerUndo app) (initOnload img c)
  | UndoEffectRerun =>
      mkApp d (triggerClear app) (triggerUndo app) (undoEffect (triggerUndo app) c)
  end.

Definition runApp (app : AppState) (actions : list Action) : AppState :=
  fold_left act actions app.

(** The trigger that the canvas has recorded is the current one. *)
Definition inStep (app : AppState) : Prop :=
  0 <= triggerUndo app /\ prevTriggerUndo (surface app) = triggerUndo app.

End App.

End App.

(** ** [src/services/gemini.ts] *)

(** The request to the model is outside the repository; the function is
    embedded from the outcome of [generateContent] on.  The patterns of the
    cleanup and of the validation are ASCII, so that matching them on the
    characters of a Rocq string (the UTF-8 bytes of the text) finds the same
    occurrences as matching them on the code units of the JavaScript
    string. *)

Module Gemini.

(** [s] starts with [pat]. *)
Fixpoint startsWith (pat s : string) : bool :=
  match pat, s with
  | EmptyString, _ => true
  | String a pat', String c s' => Ascii.eqb a c && startsWith pat' s'
  | String _ _, EmptyString => false
  end.

(** [s] without its first [n] characters. *)
Fixpoint skip (n : nat) (s : string) : string :=
  match n, s with
  | O, _ => s
  | S n', String _ s' => skip n' s'
  | S _, EmptyString => EmptyString
  end.

(** [s.replace(/pat/g, '')] for a pattern of ordinary characters: the text
    is read from left to right, each match is left out and the reading goes
    on after it.  [fuel] bounds the number of steps. *)
Fixpoint removeAllFuel (fuel : nat) (pat s : string) : string :=
  match fuel with
  | O => s
  | S fuel' =>
      match s with
      | EmptyString => EmptyString
      | String c s' =>
          if startsWith pat s
          then removeAllFuel fuel' pat (skip (String.length pat) s)
          else String c (removeAllFuel fuel' pat s')
      end
  end.

Definition removeAll (pat s : string) : string :=
  removeAllFuel (String.length s) pat s.

(** [s.includes(pat)] *)
Fixpoint includes (pat s : string) : bool :=
  startsWith pat s
  || match s with
     | String _ s' => includes pat s'
     | EmptyString => false
     end.

(** How the call of [ai.models.generateContent] ended: it threw (or its
    promise was rejected) with an error, or it gave a response, whose [text]
    may be [undefined]. *)
Inductive Response :=
| ApiError (error : string)
| ApiResponse (text : option string).

(** The promise that [convertImageToColoringPage] returns. *)
Inductive Outcome :=
| Resolved (svgText : string)
| Rejected (error : string).

(** The three [replace] calls of the cleanup. *)
Definition cleanup (svgText : string) : string :=
  let svgText := removeAll "```xml" svgText in
  let svgText := removeAll "```svg" svgText in
  let svgText := removeAll "```" svgText in
  svgText.

(** [convertImageToColoringPage], from the outcome of the request on:
    [response.text || ''], the cleanup, the validation.  The [catch] logs the
    error and throws it again, so an error of the request and the error of
    the validation both reject the promise. *)
Definition convertImageToColoringPage (response : Response) : Outcome :=
  match response with
  | ApiError error => Rejected error
  | ApiResponse text =>
      let svgText := match text with Some t => t | None => EmptyString end in
      let svgText := cleanup svgText in
      if negb (includes "<svg" svgText)
      then Rejected "Failed to generate valid SVG"
      else Resolved svgText
  end.

(** The number of backticks at the start of [s]. *)
Fixpoint leadingTicks (s : string) : nat :=
  match s with
  | String c s' => if Ascii.eqb c "`" then S (leadingTicks s') else O
  | EmptyString => O
  end.

(** [c] occurs in [s]. *)
Fixpoint occurs (c : ascii) (s : string) : bool :=
  match s with
  | String d s' => Ascii.eqb c d || occurs c s'
  | EmptyString => false
  end.

End Gemini.

(** * Properties *)

(** ** Typed arrays *)

Module JSFacts.

Lemma get_Some (arr : list Z) (i v : Z) :
  JS.get arr i = Some v -> 0 <= i < Z.of_nat (length arr).
Proof.
  unfold JS.get. destruct (Z.ltb_spec i 0); [discriminate|].
  intros E. apply lookup_lt_Some in E. lia.
Qed.

Lemma get_in_range (arr : list Z) (i : Z) :
  0 <= i < Z.of_nat (length arr) -> exists v, JS.get arr i = Some v.
Proof.
  intros Hi. unfold JS.get. destruct (Z.ltb_spec i 0); [lia|].
  destruct (lookup_lt_is_Some_2 arr (Z.to_nat i)) as [v Hv]; [lia|]. eauto.
Qed.

Lemma get_set_eq (arr : list Z) (i v : Z) :
  0 <= i < Z.of_nat (length arr) -> JS.get (JS.set arr i v) i = Some v.
Proof.
  intros Hi. unfold JS.get, JS.set. destruct (Z.ltb_spec i 0); [lia|].
  apply list_lookup_insert_eq. lia.
Qed.

Lemma get_set_ne (arr : list Z) (i j v : Z) :
  i <> j -> JS.get (JS.set arr i v) j = JS.get arr j.
Proof.
  intros Hne. unfold JS.get, JS.set.
  destruct (Z.ltb_spec j 0); [reflexivity|].
  destruct (Z.ltb_spec i 0); [reflexivity|].
  apply list_lookup_insert_ne. lia.
Qed.

Lemma length_set (arr : list Z) (i v : Z) :
  length (JS.set arr i v) = length arr.
Proof.
  unfold JS.set. destruct (i <? 0); [reflexivity|]. apply length_insert.
Qed.

(** Two arrays with the same reads are the same array. *)
Lemma get_ext (a1 a2 : list Z) :
  length a1 = length a2 ->
  (forall i, 0 <= i < Z.of_nat (length a1) -> JS.get a1 i = JS.get a2 i) ->
  a1 = a2.
Proof.
  intros Hlen Hget. apply list_eq. intros n.
  destruct (Nat.lt_ge_cases n (length a1)) as [Hn|Hn].
  - specialize (Hget (Z.of_nat n)). unfold JS.get in Hget.
    destruct (Z.ltb_spec (Z.of_nat n) 0); [lia|].
    rewrite Nat2Z.id in Hget. apply Hget. lia.
  - rewrite !lookup_ge_None_2; [reflexivity| lia | lia].
Qed.

End JSFacts.

(** ** The flood fill loop *)

Module FloodFillFacts.

Import FloodFill JSFacts.

Lemma unseen_replicate (n : nat) : unseen (replicate n 0) = n.
Proof. induction n as [|n IH]; simpl; [reflexivity | now rewrite IH]. Qed.

Lemma unseen_le_length (seen : list Z) : (unseen seen <= length seen)%nat.
Proof. induction seen as [|v l IH]; simpl; [lia|]. destruct (v =? 0); lia. Qed.

Lemma unseen_mark_nat (seen : list Z) (n : nat) :
  seen !! n = Some 0 -> S (unseen (<[n := 1]> seen)) = unseen seen.
Proof.
  revert n. induction seen as [|v l IH]; intros [|n] E; simpl in *; try discriminate.
  - injection E as ->. reflexivity.
  - rewrite <- (IH n E). lia.
Qed.

Lemma unseen_mark (seen : list Z) (i : Z) :
  JS.get seen i = Some 0 -> S (unseen (JS.set seen i 1)) = unseen seen.
Proof.
  unfold JS.get, JS.set. destruct (i <? 0); [discriminate|]. apply unseen_mark_nat.
Qed.

Lemma oob_test (W H x y : Z) :
  (x <? 0) || (x >=? W) || (y <? 0) || (y >=? H) = false <-> inBounds W H x y.
Proof. unfold inBounds. rewrite !orb_false_iff. lia. Qed.

Lemma index_range (W H x y : Z) :
  inBounds W H x y -> 0 <= y * W + x < W * H.
Proof. unfold inBounds. nia. Qed.

Lemma index_inj (W H x y x' y' : Z) :
  inBounds W H x y -> inBounds W H x' y' ->
  y * W + x = y' * W + x' -> x = x' /\ y = y'.
Proof.
  unfold inBounds. intros Hb Hb' E.
  assert (y = y') as -> by nia. lia.
Qed.

Lemma adjacent4_neighbors (x y x' y' : Z) :
  adjacent4 x y x' y' <-> In (x', y') (neighbors4 x y).
Proof.
  unfold adjacent4, neighbors4. simpl. split.
  - intros E.
    assert ((x' = x + 1 /\ y' = y) \/ (x' = x - 1 /\ y' = y)
            \/ (x' = x /\ y' = y + 1) \/ (x' = x /\ y' = y - 1)) as Hc by lia.
    destruct Hc as [[-> ->]|[[-> ->]|[[-> ->]|[-> ->]]]]; auto.
  - intros [E|[E|[E|[E|[]]]]]; injection E as <- <-; lia.
Qed.

Lemma pushNeighbors_ok : pushesNeighbors pushNeighbors.
Proof.
  intros x y s. exists [(x, y - 1); (x, y + 1); (x - 1, y); (x + 1, y)]. split.
  - reflexivity.
  - unfold neighbors4.
    change [(x, y - 1); (x, y + 1); (x - 1, y); (x + 1, y)]
      with (rev [(x + 1, y); (x - 1, y); (x, y + 1); (x, y - 1)]).
    symmetry. apply Permutation_rev.
Qed.

Lemma pushInOrder_app (order : list (Z * Z)) (x y : Z) (s : Stack) :
  pushInOrder order x y s
  = rev (map (fun d => (x + fst d, y + snd d)) order) ++ s.
Proof.
  unfold pushInOrder. revert s. induction order as [|d l IH]; intros s; simpl.
  - reflexivity.
  - rewrite IH. now rewrite <- app_assoc.
Qed.

Lemma pushInOrder_ok (order : list (Z * Z)) :
  Permutation order sourceOrder -> pushesNeighbors (pushInOrder order).
Proof.
  intros Hp x y s. eexists. split; [apply pushInOrder_app|].
  rewrite <- Permutation_rev.
  rewrite (Permutation_map (fun d => (x + fst d, y + snd d)) Hp).
  unfold sourceOrder, neighbors4. simpl.
  replace (x + 0) with x by lia. replace (y + 0) with y by lia.
  replace (x + -1) with (x - 1) by lia. replace (y + -1) with (y - 1) by lia.
  reflexivity.
Qed.

(** *** Pixels *)

Section Pixels.

Variables startR startG startB startA : option Z.
Variables r g b a : JS.Num.

Local Abbreviation fillPixel := (FloodFill.fillPixel r g b a).
Local Abbreviation refPixel := (FloodFill.refPixel startR startG startB startA).

Lemma matchColor_pixelAt (d : list Z) (i : Z) :
  matchColor startR startG startB startA d (i * 4)
  = match pixelAt d i, refPixel with
    | Some p, Some q => sqDist p q <? 12000
    | _, _ => false
    end.
Proof.
  unfold matchColor, pixelAt, refPixel.
  destruct (JS.get d (i * 4)) as [p0|], (JS.get d (i * 4 + 1)) as [p1|],
    (JS.get d (i * 4 + 2)) as [p2|], (JS.get d (i * 4 + 3)) as [p3|],
    startR as [s0|], startG as [s1|], startB as [s2|], startA as [s3|];
    reflexivity.
Qed.

Lemma matchColor_ext (d1 d2 : list Z) (i : Z) :
  pixelAt d1 i = pixelAt d2 i ->
  matchColor startR startG startB startA d1 (i * 4)
  = matchColor startR startG startB startA d2 (i * 4).
Proof. intros E. now rewrite !matchColor_pixelAt, E. Qed.

Lemma length_colorPixel (d : list Z) (pos : Z) :
  length (colorPixel r g b a d pos) = length d.
Proof. unfold colorPixel. now rewrite !length_set. Qed.

Lemma pixelAt_colorPixel_eq (d : list Z) (i : Z) :
  0 <= i -> i * 4 + 3 < Z.of_nat (length d) ->
  pixelAt (colorPixel r g b a d (i * 4)) i = Some fillPixel.
Proof.
  intros Hi Hlen. unfold pixelAt, colorPixel, fillPixel.
  rewrite (get_set_eq _ (i * 4 + 3)) by (rewrite !length_set; lia).
  rewrite (get_set_ne _ (i * 4 + 3) (i * 4 + 2)) by lia.
  rewrite (get_set_eq _ (i * 4 + 2)) by (rewrite !length_set; lia).
  rewrite (get_set_ne _ (i * 4 + 3) (i * 4 + 1)) by lia.
  rewrite (get_set_ne _ (i * 4 + 2) (i * 4 + 1)) by lia.
  rewrite (get_set_eq _ (i * 4 + 1)) by (rewrite !length_set; lia).
  rewrite (get_set_ne _ (i * 4 + 3) (i * 4)) by lia.
  rewrite (get_set_ne _ (i * 4 + 2) (i * 4)) by lia.
  rewrite (get_set_ne _ (i * 4 + 1) (i * 4)) by lia.
  rewrite (get_set_eq _ (i * 4)) by lia.
  reflexivity.
Qed.

Lemma pixelAt_colorPixel_ne (d : list Z) (i j : Z) :
  i <> j -> pixelAt (colorPixel r g b a d (i * 4)) j = pixelAt d j.
Proof.
  intros Hne. unfold pixelAt, colorPixel.
  rewrite !get_set_ne by lia. reflexivity.
Qed.

End Pixels.

Lemma pixelAt_in_range (d : list Z) (n i : Z) :
  Z.of_nat (length d) = n * 4 -> 0 <= i < n -> exists p, pixelAt d i = Some p.
Proof.
  intros Hlen Hi. unfold pixelAt.
  destruct (get_in_range d (i * 4)) as [p0 ->]; [lia|].
  destruct (get_in_range d (i * 4 + 1)) as [p1 ->]; [lia|].
  destruct (get_in_range d (i * 4 + 2)) as [p2 ->]; [lia|].
  destruct (get_in_range d (i * 4 + 3)) as [p3 ->]; [lia|].
  eauto.
Qed.

(** Two buffers of [n] pixels with the same pixels are the same bytes. *)
Lemma pixelAt_ext (d1 d2 : list Z) (n : Z) :
  Z.of_nat (length d1) = n * 4 -> Z.of_nat (length d2) = n * 4 ->
  (forall i, 0 <= i < n -> pixelAt d1 i = pixelAt d2 i) ->
  d1 = d2.
Proof.
  intros H1 H2 Hpix. apply get_ext; [lia|]. intros j Hj.
  assert (0 <= j / 4 < n) as Hq by (split; [apply Z.div_pos; lia | apply Z.div_lt_upper_bound; lia]).
  specialize (Hpix (j / 4) Hq). unfold pixelAt in Hpix.
  destruct (get_in_range d1 (j / 4 * 4)) as [p0 E0]; [lia|].
  destruct (get_in_range d1 (j / 4 * 4 + 1)) as [p1 E1]; [lia|].
  destruct (get_in_range d1 (j / 4 * 4 + 2)) as [p2 E2]; [lia|].
  destruct (get_in_range d1 (j / 4 * 4 + 3)) as [p3 E3]; [lia|].
  destruct (get_in_range d2 (j / 4 * 4)) as [q0 F0]; [lia|].
  destruct (get_in_range d2 (j / 4 * 4 + 1)) as [q1 F1]; [lia|].
  destruct (get_in_range d2 (j / 4 * 4 + 2)) as [q2 F2]; [lia|].
  destruct (get_in_range d2 (j / 4 * 4 + 3)) as [q3 F3]; [lia|].
  rewrite E0, E1, E2, E3, F0, F1, F2, F3 in Hpix.
  injection Hpix as -> -> -> ->.
  pose proof (Z.div_mod j 4 ltac:(lia)) as Hdm.
  pose proof (Z.mod_pos_bound j 4 ltac:(lia)) as Hm.
  assert (j = j / 4 * 4 \/ j = j / 4 * 4 + 1 \/ j = j / 4 * 4 + 2 \/ j = j / 4 * 4 + 3)
    as [E|[E|[E|E]]] by lia; rewrite E; congruence.
Qed.

(** *** One iteration, and termination *)

Section Loop.

Variables W H : Z.
Variables startR startG startB startA : option Z.
Variables r g b a : JS.Num.
Variable push : Z -> Z -> Stack -> Stack.
Hypothesis push_ok : pushesNeighbors push.

Local Abbreviation body := (loopBody W H startR startG startB startA r g b a push).
Local Abbreviation loop := (runLoop W H startR startG startB startA r g b a push).
Local Abbreviation matches := (matchColor startR startG startB startA).
Local Abbreviation paint := (colorPixel r g b a).

(** The four branches of the loop body. *)
Lemma loopBody_cases (x y : Z) (d s : list Z) (rest : Stack) :
  let st := mkLoop d s rest in
  let i := y * W + x in
  (~ inBounds W H x y /\ body x y st = (st, OutOfBounds))
  \/ (inBounds W H x y /\ isSeen s i = true /\ body x y st = (st, AlreadySeen))
  \/ (inBounds W H x y /\ isSeen s i = false /\ matches d (i * 4) = false
      /\ body x y st = (st, NoMatch))
  \/ (inBounds W H x y /\ isSeen s i = false /\ matches d (i * 4) = true
      /\ body x y st
         = (mkLoop (paint d (i * 4)) (JS.set s i 1) (push x y rest), Filled i)).
Proof.
  intros st i. unfold loopBody. fold i. simpl.
  destruct ((x <? 0) || (x >=? W) || (y <? 0) || (y >=? H)) eqn:Eb.
  - left. split; [|reflexivity]. intros Hin. apply oob_test in Hin. congruence.
  - right. apply oob_test in Eb.
    destruct (isSeen s i) eqn:Es; [left; auto|].
    right. destruct (matches d (i * 4)) eqn:Em; [right | left]; auto.
Qed.

Lemma isSeen_false (s : list Z) (i : Z) :
  0 <= i < Z.of_nat (length s) -> isSeen s i = false -> JS.get s i = Some 0.
Proof.
  intros Hi. unfold isSeen. destruct (get_in_range s i Hi) as [v ->].
  destruct (Z.eqb_spec v 0); [congruence | discriminate].
Qed.

Lemma isSeen_true (s : list Z) (i : Z) :
  isSeen s i = true -> exists v, JS.get s i = Some v /\ v <> 0.
Proof.
  unfold isSeen. destruct (JS.get s i) as [v|]; [|discriminate].
  destruct (Z.eqb_spec v 0); [discriminate|]. eauto.
Qed.

Lemma push_length (x y : Z) (s : Stack) :
  length (push x y s) = (4 + length s)%nat.
Proof.
  destruct (push_ok x y s) as (ns & -> & Hp).
  rewrite length_app, (Permutation_length Hp). reflexivity.
Qed.

(** The loop ends: every iteration lowers
    [length stack + 4 * unseen seen] by one. *)
Lemma runLoop_terminates (fuel : nat) (st : LoopState) :
  length (seen st) = Z.to_nat (W * H) ->
  (length (stack st) + 4 * unseen (seen st) <= fuel)%nat ->
  exists st' log,
    loop fuel st = Some (st', log)
    /\ stack st' = []
    /\ (length log + 4 * unseen (seen st')
        = length (stack st) + 4 * unseen (seen st))%nat
    /\ (length (marked log) + unseen (seen st') = unseen (seen st))%nat.
Proof.
  revert st. induction fuel as [|fuel IH]; intros [d s stk] Hlen Hfuel;
    simpl in Hlen, Hfuel.
  - destruct stk as [|[x y] rest]; [|simpl in Hfuel; lia].
    exists (mkLoop d s []), []. simpl. auto.
  - destruct stk as [|[x y] rest].
    { exists (mkLoop d s []), []. simpl. auto. }
    simpl in Hfuel. cbn [runLoop stack data seen].
    destruct (loopBody_cases x y d s rest)
      as [(_ & ->)|[(_ & _ & ->)|[(_ & _ & _ & ->)|(Hin & Hs & _ & ->)]]].
    1-3: destruct (IH (mkLoop d s rest)) as (st' & log & -> & He & Hn & Hm);
      [assumption | simpl; lia |];
      eexists _, _; split; [reflexivity|]; simpl in *; repeat split; auto; lia.
    apply index_range in Hin.
    apply isSeen_false in Hs; [|lia].
    pose proof (unseen_mark _ _ Hs) as Hu.
    destruct (IH (mkLoop (paint d ((y * W + x) * 4)) (JS.set s (y * W + x) 1)
                         (push x y rest)))
      as (st' & log & -> & He & Hn & Hm).
    + simpl. now rewrite length_set.
    + simpl. rewrite push_length. lia.
    + eexists _, _; split; [reflexivity|]. simpl in *.
      rewrite push_length in Hn. repeat split; auto; lia.
Qed.

(** More iterations than needed change nothing. *)
Lemma runLoop_more_fuel (fuel fuel' : nat) (st : LoopState) res :
  loop fuel st = Some res -> (fuel <= fuel')%nat -> loop fuel' st = Some res.
Proof.
  revert fuel' st res. induction fuel as [|fuel IH]; intros fuel' [d s stk] res E Hle.
  - destruct stk as [|[x y] rest]; [|discriminate].
    destruct fuel'; exact E.
  - destruct fuel' as [|fuel']; [lia|].
    destruct stk as [|[x y] rest]; [exact E|].
    cbn [runLoop stack data seen] in *.
    destruct (body x y (mkLoop d s rest)) as [st1 o].
    destruct (loop fuel st1) as [[st' log]|] eqn:E1; [|discriminate].
    rewrite (IH fuel' st1 _ E1) by lia. exact E.
Qed.

End Loop.

(** *** The loop invariant *)

Section Invariant.

Variables W H : Z.
Variables startR startG startB startA : option Z.
Variables r g b a : JS.Num.
Variable push : Z -> Z -> Stack -> Stack.
Hypothesis push_ok : pushesNeighbors push.

(** The buffer at the start of the loop, and the seed. *)
Variable orig : list Z.
Variables sx sy : Z.
Hypothesis orig_length : Z.of_nat (length orig) = W * H * 4.

Local Abbreviation body := (loopBody W H startR startG startB startA r g b a push).
Local Abbreviation loop := (runLoop W H startR startG startB startA r g b a push).
Local Abbreviation matches := (matchColor startR startG startB startA).
Local Abbreviation paint := (colorPixel r g b a).
Local Abbreviation target := (FloodFill.fillPixel r g b a).

Local Abbreviation okOrig := (FloodFill.okOrig W startR startG startB startA orig).
Local Abbreviation region := (Region W H sx sy okOrig).
Local Abbreviation Inv :=
  (FloodFill.Inv W H startR startG startB startA r g b a orig sx sy).

Hypothesis seed_ok : inBounds W H sx sy -> okOrig sx sy.

Lemma Inv_init : Inv (mkLoop orig (replicate (Z.to_nat (W * H)) 0) [(sx, sy)]).
Proof.
  assert (forall i v, JS.get (replicate (Z.to_nat (W * H)) 0) i = Some v -> v = 0)
    as Hrep.
  { intros i v. unfold JS.get. destruct (i <? 0); [discriminate|].
    intros E. apply lookup_replicate in E. tauto. }
  constructor; simpl.
  - reflexivity.
  - apply length_replicate.
  - intros i v E. left. eauto.
  - intros i _ E. apply Hrep in E. discriminate.
  - reflexivity.
  - intros x y _ E. apply Hrep in E. discriminate.
  - intros x y [E|[]] Hin _. injection E as <- <-. now constructor.
  - intros x y x' y' _ E. apply Hrep in E. discriminate.
  - auto.
Qed.

Lemma seen_bit_at (st : LoopState) (i : Z) :
  Inv st -> 0 <= i < W * H ->
  JS.get (seen st) i = Some 0 \/ JS.get (seen st) i = Some 1.
Proof.
  intros HI Hi. destruct (get_in_range (seen st) i) as [v Hv].
  { rewrite (inv_seen_length _ HI). lia. }
  destruct (inv_seen_bit _ HI i v Hv) as [-> | ->]; auto.
Qed.

(** Dropping the popped coordinate keeps the invariant when that coordinate
    is outside the grid, already marked, or does not match. *)
Lemma Inv_skip (x y : Z) (d s : list Z) (rest : Stack) :
  Inv (mkLoop d s ((x, y) :: rest)) ->
  (inBounds W H x y -> okOrig x y -> JS.get s (y * W + x) = Some 1) ->
  Inv (mkLoop d s rest).
Proof.
  intros HI Hskip. destruct HI as [I1 I2 I3 I4 I4' I5 I6 I7 I8]; simpl in *.
  constructor; simpl; auto.
  - intros x' y' x'' y'' Hin Hs Hadj Hin' Hok.
    destruct (I7 _ _ _ _ Hin Hs Hadj Hin' Hok) as [?|[E|?]]; auto.
    injection E as <- <-. auto.
  - intros Hin. destruct (I8 Hin) as [?|[E|?]]; auto.
    injection E as <- <-. auto.
Qed.

Lemma Inv_fill (x y : Z) (d s : list Z) (rest : Stack) :
  Inv (mkLoop d s ((x, y) :: rest)) ->
  inBounds W H x y ->
  JS.get s (y * W + x) = Some 0 ->
  matches d ((y * W + x) * 4) = true ->
  Inv (mkLoop (paint d ((y * W + x) * 4)) (JS.set s (y * W + x) 1) (push x y rest)).
Proof.
  intros HI Hin Hs Hm.
  pose proof (index_range _ _ _ _ Hin) as Hi.
  assert (okOrig x y) as Hok.
  { unfold okOrig. rewrite <- Hm. symmetry. apply matchColor_ext.
    apply (inv_untouched _ HI); assumption. }
  assert (region x y) as Hreg.
  { apply (inv_stack_region _ HI); simpl; auto. }
  destruct (push_ok x y rest) as (ns & Hpush & Hperm).
  assert (forall j, JS.get s j = Some 1 -> JS.get (JS.set s (y * W + x) 1) j = Some 1)
    as Hkeep.
  { intros j Hj. destruct (Z.eq_dec (y * W + x) j) as [<-|Hne].
    - congruence.
    - now rewrite get_set_ne. }
  assert (JS.get (JS.set s (y * W + x) 1) (y * W + x) = Some 1) as Hnew.
  { apply get_set_eq. pose proof (inv_seen_length _ HI) as E. simpl in E. lia. }
  destruct HI as [I1 I2 I3 I4 I4' I5 I6 I7 I8]; simpl in *.
  constructor; simpl.
  - now rewrite length_colorPixel.
  - now rewrite length_set.
  - intros j v. destruct (Z.eq_dec (y * W + x) j) as [<-|Hne].
    + rewrite Hnew. intros E. injection E as <-. auto.
    + rewrite get_set_ne by assumption. apply I3.
  - intros j Hj. destruct (Z.eq_dec (y * W + x) j) as [<-|Hne].
    + intros _. apply pixelAt_colorPixel_eq; lia.
    + rewrite get_set_ne, pixelAt_colorPixel_ne by assumption. now apply I4.
  - intros j Hj. destruct (Z.eq_dec (y * W + x) j) as [<-|Hne].
    + rewrite Hnew. discriminate.
    + rewrite get_set_ne, pixelAt_colorPixel_ne by assumption. now apply I4'.
  - intros x' y' Hin'. destruct (Z.eq_dec (y * W + x) (y' * W + x')) as [E|Hne].
    + destruct (index_inj _ _ _ _ _ _ Hin Hin' E) as [<- <-]. auto.
    + rewrite get_set_ne by assumption. now apply I5.
  - intros x' y' Hmem Hin' Hok'. rewrite Hpush in Hmem.
    apply in_app_or in Hmem as [Hmem|Hmem].
    + apply (region_step _ _ _ _ _ x y); auto.
      apply adjacent4_neighbors. eapply Permutation_in; eassumption.
    + apply I6; auto.
  - intros x1 y1 x' y' Hin1 Hs1 Hadj Hin' Hok'.
    destruct (Z.eq_dec (y * W + x) (y1 * W + x1)) as [E|Hne].
    + destruct (index_inj _ _ _ _ _ _ Hin Hin1 E) as [<- <-].
      right. rewrite Hpush. apply in_or_app. left.
      apply Permutation_in with (l := neighbors4 x y); [now symmetry|].
      now apply adjacent4_neighbors.
    + rewrite get_set_ne in Hs1 by assumption.
      destruct (I7 _ _ _ _ Hin1 Hs1 Hadj Hin' Hok') as [?|[E|?]].
      * left. auto.
      * injection E as <- <-. left. assumption.
      * right. rewrite Hpush. apply in_or_app. auto.
  - intros Hins. destruct (I8 Hins) as [?|[E|?]].
    + left. auto.
    + injection E as <- <-. left. assumption.
    + right. rewrite Hpush. apply in_or_app. auto.
Qed.

(** One iteration keeps the invariant. *)
Lemma Inv_body (x y : Z) (d s : list Z) (rest : Stack) :
  Inv (mkLoop d s ((x, y) :: rest)) -> Inv (fst (body x y (mkLoop d s rest))).
Proof.
  intros HI.
  destruct (loopBody_cases W H startR startG startB startA r g b a push x y d s rest)
    as [(Hout & ->)|[(Hin & Hs & ->)|[(Hin & Hs & Hm & ->)|(Hin & Hs & Hm & ->)]]];
    simpl.
  - apply (Inv_skip x y); [assumption|]. intros Hin. contradiction.
  - apply (Inv_skip x y); [assumption|]. intros _ _.
    apply isSeen_true in Hs as (v & Hv & Hne).
    destruct (inv_seen_bit _ HI _ _ Hv); congruence.
  - apply (Inv_skip x y); [assumption|]. intros _ Hok. exfalso.
    pose proof (index_range _ _ _ _ Hin) as Hi.
    apply isSeen_false in Hs;
      [|pose proof (inv_seen_length _ HI) as E; simpl in E; lia].
    unfold okOrig in Hok.
    rewrite <- (matchColor_ext _ _ _ _ d orig) in Hok; [congruence|].
    apply (inv_untouched _ HI); assumption.
  - pose proof (index_range _ _ _ _ Hin) as Hi.
    apply isSeen_false in Hs;
      [|pose proof (inv_seen_length _ HI) as E; simpl in E; lia].
    now apply Inv_fill.
Qed.

Lemma runLoop_Inv (fuel : nat) (st st' : LoopState) (log : list Outcome) :
  loop fuel st = Some (st', log) -> Inv st -> Inv st' /\ stack st' = [].
Proof.
  revert st st' log. induction fuel as [|fuel IH]; intros [d s stk] st' log E HI.
  - destruct stk as [|[x y] rest]; [|discriminate].
    injection E as <- <-. auto.
  - destruct stk as [|[x y] rest].
    { injection E as <- <-. auto. }
    cbn [runLoop stack data seen] in E.
    pose proof (Inv_body x y d s rest HI) as HI1.
    destruct (body x y (mkLoop d s rest)) as [st1 o].
    destruct (loop fuel st1) as [[st2 log2]|] eqn:E1; [|discriminate].
    injection E as <- <-. eapply IH; eassumption.
Qed.

(** With an empty stack, every pixel of the region is marked. *)
Lemma Inv_final_region (st : LoopState) (x y : Z) :
  Inv st -> stack st = [] ->
  region x y -> JS.get (seen st) (y * W + x) = Some 1.
Proof.
  intros HI He Hreg. induction Hreg as [Hin | x y x' y' Hreg IH Hadj Hin' Hok].
  - destruct (inv_seed _ HI Hin) as [?|Hmem]; [assumption|].
    rewrite He in Hmem. destruct Hmem.
  - assert (inBounds W H x y) as Hin by (destruct Hreg; assumption).
    destruct (inv_closed _ HI _ _ _ _ Hin IH Hadj Hin' Hok) as [?|Hmem];
      [assumption|].
    rewrite He in Hmem. destruct Hmem.
Qed.

(** At the end, a pixel of the grid is in the region and painted, or outside
    the region and as it was. *)
Lemma Inv_final_pixel (st : LoopState) (x y : Z) :
  Inv st -> stack st = [] -> inBounds W H x y ->
  (region x y /\ JS.get (seen st) (y * W + x) = Some 1
   /\ pixelAt (data st) (y * W + x) = Some target)
  \/ (~ region x y /\ JS.get (seen st) (y * W + x) = Some 0
      /\ pixelAt (data st) (y * W + x) = pixelAt orig (y * W + x)).
Proof.
  intros HI He Hin. pose proof (index_range _ _ _ _ Hin) as Hi.
  destruct (seen_bit_at st _ HI Hi) as [Hs|Hs].
  - right. split; [|split].
    + intros Hreg. pose proof (Inv_final_region st x y HI He Hreg). congruence.
    + assumption.
    + now apply (inv_untouched _ HI).
  - left. split; [|split].
    + now apply (inv_seen_region _ HI).
    + assumption.
    + now apply (inv_painted _ HI).
Qed.

End Invariant.

(** The linear index of a pixel of the grid, back to its coordinates. *)
Lemma index_coords (W H i : Z) :
  0 < W -> 0 <= i < W * H ->
  inBounds W H (i mod W) (i / W) /\ i = i / W * W + i mod W.
Proof.
  intros HW Hi.
  pose proof (Z.mod_pos_bound i W HW) as Hm.
  pose proof (Z.div_mod i W ltac:(lia)) as Hdm.
  unfold inBounds. repeat split; try lia.
  - apply Z.div_pos; lia.
  - apply Z.div_lt_upper_bound; nia.
Qed.

Lemma Region_impl (W H sx sy : Z) (ok1 ok2 : Z -> Z -> Prop) (x y : Z) :
  (forall x y, inBounds W H x y -> ok1 x y -> ok2 x y) ->
  Region W H sx sy ok1 x y -> Region W H sx sy ok2 x y.
Proof.
  intros Himp Hreg. induction Hreg as [Hin | x y x' y' Hreg IH Hadj Hin' Hok].
  - now constructor.
  - apply (region_step _ _ _ _ _ x y); auto.
Qed.

Lemma Region_inBounds (W H sx sy : Z) (ok : Z -> Z -> Prop) (x y : Z) :
  Region W H sx sy ok x y -> inBounds W H x y.
Proof. intros Hreg. destruct Hreg; assumption. Qed.

(** *** What the log of the loop says about the markers *)

Section Trace.

Variables W H : Z.
Variables startR startG startB startA : option Z.
Variables r g b a : JS.Num.
Variable push : Z -> Z -> Stack -> Stack.

Local Abbreviation body := (loopBody W H startR startG startB startA r g b a push).
Local Abbreviation loop := (runLoop W H startR startG startB startA r g b a push).

(** Every [seen[i] = 1] that the loop executes hits a marker that was 0 and
    is in the grid: no pixel is marked twice.  The markers that are 1 at the
    end are those that were 1 at the start and those the loop set. *)
Lemma runLoop_marked (fuel : nat) (st st' : LoopState) (log : list Outcome) :
  loop fuel st = Some (st', log) ->
  length (seen st) = Z.to_nat (W * H) ->
  List.NoDup (marked log)
  /\ (forall i, In i (marked log) ->
        0 <= i < W * H /\ JS.get (seen st) i = Some 0
        /\ JS.get (seen st') i = Some 1)
  /\ (forall i, JS.get (seen st) i = Some 1 -> JS.get (seen st') i = Some 1)
  /\ (forall i, JS.get (seen st') i = Some 1 ->
        JS.get (seen st) i = Some 1 \/ In i (marked log)).
Proof.
  revert st st' log. induction fuel as [|fuel IH]; intros [d s stk] st' log E Hlen;
    simpl in Hlen.
  - destruct stk as [|[x y] rest]; [|discriminate].
    injection E as <- <-. simpl. repeat split; auto; try constructor; tauto.
  - destruct stk as [|[x y] rest].
    { injection E as <- <-. simpl. repeat split; auto; try constructor; tauto. }
    cbn [runLoop stack data seen] in E.
    destruct (loopBody_cases W H startR startG startB startA r g b a push x y d s rest)
      as [(_ & Eb)|[(_ & _ & Eb)|[(_ & _ & _ & Eb)|(Hin & Hs & _ & Eb)]]];
      rewrite Eb in E;
      match type of E with
      | context [loop fuel ?st1] =>
          destruct (loop fuel st1) as [[st2 log2]|] eqn:E1; [|discriminate]
      end;
      injection E as <- <-.
    1-3: apply (IH _ _ _ E1); assumption.
    apply IH in E1; [|simpl; now rewrite length_set].
    destruct E1 as (Hnd & Hmk & Hmono & Hback). simpl in *.
    apply index_range in Hin. apply isSeen_false in Hs; [|lia].
    assert (JS.get (JS.set s (y * W + x) 1) (y * W + x) = Some 1) as Hnew
      by (apply get_set_eq; lia).
    split; [|split; [|split]].
    + constructor; [|assumption]. intros Hmem.
      apply Hmk in Hmem as (_ & Hz & _). congruence.
    + intros i [<-|Hmem].
      * repeat split; try lia; [assumption | now apply Hmono].
      * pose proof (Hmk i Hmem) as (Hr & Hz & Ho). repeat split; try lia; auto.
        destruct (Z.eq_dec (y * W + x) i) as [<-|Hne]; [congruence|].
        now rewrite get_set_ne in Hz.
    + intros i Hi. apply Hmono.
      destruct (Z.eq_dec (y * W + x) i) as [<-|Hne]; [assumption|].
      now rewrite get_set_ne.
    + intros i Hi. apply Hback in Hi as [Hi|Hi]; [|auto].
      destruct (Z.eq_dec (y * W + x) i) as [<-|Hne]; [auto|].
      rewrite get_set_ne in Hi by assumption. auto.
Qed.

End Trace.

(** *** A whole call *)

Lemma clamp_byte (v : Z) : isByte v -> JS.toUint8Clamp (Some v) = v.
Proof. unfold isByte, JS.toUint8Clamp. lia. Qed.

Lemma strictEq_true (u : option Z) (v : JS.Num) :
  JS.strictEq u v = true <-> exists n, u = Some n /\ v = Some n.
Proof.
  unfold JS.strictEq. destruct u as [x|], v as [y|]; split;
    try discriminate; try (intros (n & E1 & E2); discriminate).
  - intros E. apply Z.eqb_eq in E as ->. eauto.
  - intros (n & E1 & E2). injection E1 as ->. injection E2 as ->. apply Z.eqb_refl.
Qed.

Lemma sqDist_self (p : Z * Z * Z * Z) : sqDist p p = 0.
Proof. destruct p as [[[p0 p1] p2] p3]. unfold sqDist. lia. Qed.

Lemma refPixel_at (d : list Z) (i : Z) :
  refPixel (JS.get d (i * 4)) (JS.get d (i * 4 + 1)) (JS.get d (i * 4 + 2))
           (JS.get d (i * 4 + 3))
  = pixelAt d i.
Proof. reflexivity. Qed.

Section Call.

Variable push : Z -> Z -> Stack -> Stack.
Variable fuel : nat.
Variable data : list Z.
Variables sx sy : Z.
Variable hex : string.
Variables W H : Z.
Variables r g b : JS.Num.
Hypothesis push_ok : pushesNeighbors push.
Hypothesis fuel_ok : (enoughFuel W H <= fuel)%nat.
Hypothesis parsed : parseFill hex = (r, g, b).

Local Abbreviation i0 := (sy * W + sx).
Local Abbreviation sR := (JS.get data (i0 * 4)).
Local Abbreviation sG := (JS.get data (i0 * 4 + 1)).
Local Abbreviation sB := (JS.get data (i0 * 4 + 2)).
Local Abbreviation sA := (JS.get data (i0 * 4 + 3)).
Local Abbreviation start :=
  (mkLoop data (replicate (Z.to_nat (W * H)) 0) [(sx, sy)]).
Local Abbreviation loop := (runLoop W H sR sG sB sA r g b (Some 255) push).

Local Abbreviation sameColor := (FloodFill.sameColor data (i0 * 4) r g b).

Lemma floodFillRun_unfold :
  floodFillRun push fuel data sx sy hex W H
  = if sameColor then SameColor
    else match loop fuel start with
         | Some (st, log) => Looped st log
         | None => OutOfFuel
         end.
Proof. unfold floodFillRun. rewrite parsed. reflexivity. Qed.

(** The loop of a call ends within [enoughFuel] iterations. *)
Lemma call_loop_ends :
  exists st log,
    loop fuel start = Some (st, log) /\ stack st = []
    /\ (length log <= enoughFuel W H)%nat
    /\ (length (marked log) <= Z.to_nat (W * H))%nat.
Proof.
  destruct (runLoop_terminates W H sR sG sB sA r g b (Some 255) push push_ok
              (enoughFuel W H) start) as (st & log & E & He & Hn & Hm).
  - simpl. apply length_replicate.
  - simpl. rewrite unseen_replicate. unfold enoughFuel. lia.
  - exists st, log. simpl in Hn, Hm. rewrite unseen_replicate in Hn, Hm.
    repeat split.
    + eapply runLoop_more_fuel; eassumption.
    + assumption.
    + unfold enoughFuel. lia.
    + lia.
Qed.

Lemma floodFillRun_cases :
  (sameColor = true /\ floodFillRun push fuel data sx sy hex W H = SameColor)
  \/ (sameColor = false /\ exists st log,
        floodFillRun push fuel data sx sy hex W H = Looped st log
        /\ loop fuel start = Some (st, log)).
Proof.
  rewrite floodFillRun_unfold. destruct sameColor; [left; auto | right].
  split; [reflexivity|].
  destruct call_loop_ends as (st & log & -> & _). eauto.
Qed.

Hypothesis data_length : Z.of_nat (length data) = W * H * 4.

Lemma seed_matches : inBounds W H sx sy -> okOrig W sR sG sB sA data sx sy.
Proof.
  intros Hin. unfold okOrig. rewrite matchColor_pixelAt, refPixel_at.
  destruct (pixelAt_in_range data (W * H) i0 data_length) as [p ->].
  { now apply index_range. }
  rewrite sqDist_self. reflexivity.
Qed.

(** The final state of the loop of a call satisfies the invariant. *)
Lemma call_loop_Inv (st : LoopState) (log : list Outcome) :
  loop fuel start = Some (st, log) ->
  Inv W H sR sG sB sA r g b (Some 255) data sx sy st /\ stack st = [].
Proof.
  intros E.
  apply (runLoop_Inv W H sR sG sB sA r g b (Some 255) push push_ok data sx sy
           data_length seed_matches fuel start st log E).
  apply Inv_init.
Qed.

End Call.

(** Two final states of the loop for the same call hold the same bytes,
    however they were reached. *)
Lemma Inv_final_unique (W H : Z) (sR sG sB sA : option Z) (r g b a : JS.Num)
    (orig : list Z) (sx sy : Z) (st1 st2 : LoopState) :
  0 < W -> Z.of_nat (length orig) = W * H * 4 ->
  Inv W H sR sG sB sA r g b a orig sx sy st1 -> stack st1 = [] ->
  Inv W H sR sG sB sA r g b a orig sx sy st2 -> stack st2 = [] ->
  data st1 = data st2.
Proof.
  intros HW Hlen HI1 He1 HI2 He2.
  apply (pixelAt_ext _ _ (W * H)).
  - rewrite (inv_data_length _ HI1). assumption.
  - rewrite (inv_data_length _ HI2). assumption.
  - intros i Hi. destruct (index_coords W H i HW Hi) as [Hin ->].
    destruct (Inv_final_pixel _ _ _ _ _ _ _ _ _ _ _ _ _ st1 _ _ HI1 He1 Hin)
      as [(Hr1 & _ & ->)|(Hr1 & _ & ->)];
    destruct (Inv_final_pixel _ _ _ _ _ _ _ _ _ _ _ _ _ st2 _ _ HI2 He2 Hin)
      as [(Hr2 & _ & ->)|(Hr2 & _ & ->)];
    try reflexivity; contradiction.
Qed.

(** Within the tolerance of the reference colour, in the words of the
    specification and as [matchColor] computes it. *)
Lemma okOrig_similar (W : Z) (data : list Z) (i0 : Z) (ref : Z * Z * Z * Z)
    (x y : Z) :
  pixelAt data i0 = Some ref ->
  okOrig W (JS.get data (i0 * 4)) (JS.get data (i0 * 4 + 1))
         (JS.get data (i0 * 4 + 2)) (JS.get data (i0 * 4 + 3)) data x y
  <-> similar data ref W x y.
Proof.
  intros Href. unfold okOrig, similar.
  rewrite matchColor_pixelAt, refPixel_at, Href.
  destruct (pixelAt data (y * W + x)) as [p|].
  - rewrite Z.ltb_lt. split.
    + intros Hlt. eauto.
    + intros (q & E & Hlt). injection E as <-. assumption.
  - split; [discriminate|]. intros (q & E & _). discriminate.
Qed.

Lemma sameColor_true (data : list Z) (i : Z) (r g b : JS.Num) :
  sameColor data (i * 4) r g b = true <->
  exists r' g' b', r = Some r' /\ g = Some g' /\ b = Some b'
                   /\ pixelAt data i = Some (r', g', b', 255).
Proof.
  unfold sameColor, pixelAt. rewrite !andb_true_iff, !strictEq_true. split.
  - intros ((((r' & -> & ->) & (g' & -> & ->)) & (b' & -> & ->)) & (a' & -> & E)).
    injection E as <-. exists r', g', b'. auto.
  - intros (r' & g' & b' & -> & -> & -> & E).
    destruct (JS.get data (i * 4)) as [p0|]; [|discriminate].
    destruct (JS.get data (i * 4 + 1)) as [p1|]; [|discriminate].
    destruct (JS.get data (i * 4 + 2)) as [p2|]; [|discriminate].
    destruct (JS.get data (i * 4 + 3)) as [p3|]; [|discriminate].
    injection E as -> -> -> ->. repeat split; eauto.
Qed.

End FloodFillFacts.

(** ** The flood fill: what the specification states *)

Module FloodFillSpec.

Import FloodFill JSFacts FloodFillFacts.

(** The parser on the colours of the palette and on malformed strings. *)
Example parseFill_red : parseFill "#ef4444" = (Some 239, Some 68, Some 68).
Proof. reflexivity. Qed.

Example parseFill_no_hash : parseFill "FFffff" = (Some 255, Some 255, Some 255).
Proof. reflexivity. Qed.

Example parseFill_short : parseFill "#fff" = (Some 255, Some 15, None).
Proof. reflexivity. Qed.

Example parseFill_signed : parseFill "#-f 10x" = (Some (-15), Some 1, None).
Proof. reflexivity. Qed.

(** [sample] filled from its top left corner: the three white pixels turn
    red, the black one stays. *)
Example floodFill_sample :
  floodFill sample 0 0 "#ef4444" 2 2
  = Some [239; 68; 68; 255;  0; 0; 0; 255;
          239; 68; 68; 255;  239; 68; 68; 255].
Proof. vm_compute. reflexivity. Qed.

(** The first scenario of the specification: a 10 x 10 white buffer, seed
    (5, 5), black: every pixel becomes [0, 0, 0, 255]. *)
Example floodFill_white10_black :
  floodFill white10 5 5 "#000000" 10 10
  = Some (concat (replicate 100 [0; 0; 0; 255])).
Proof. vm_compute. reflexivity. Qed.

(** The second scenario: the fill from (2, 2) with red stops at the black
    line; the columns from 5 on are unchanged. *)
Example floodFill_split10_red :
  floodFill split10 2 2 "#ff0000" 10 10
  = Some (concat (replicate 10 splitRowFilled)).
Proof. vm_compute. reflexivity. Qed.

(** The order of the source is one of the orders of [pushInOrder]. *)
Lemma pushInOrder_source (x y : Z) (s : Stack) :
  pushInOrder sourceOrder x y s = pushNeighbors x y s.
Proof.
  unfold pushInOrder, sourceOrder, pushNeighbors. simpl.
  repeat f_equal; lia.
Qed.

(** C1.  On a buffer of [W * H] pixels, for a seed in the grid and a fill
    colour [#rrggbb] that is not the colour of the seed pixel, [floodFill]
    returns a buffer of the same size in which a pixel of the grid holds
    [(r, g, b, 255)] when it belongs to the 4-connected region of the seed
    (reached from the seed through pixels of the grid whose colour before the
    call is at squared distance below 12000 from the seed's), and is as
    before the call otherwise.  Pushing the four neighbours in any other
    order, and allowing any larger number of iterations, gives the same
    buffer. *)
Theorem floodFill_paints_region (data : list Z) (W H sx sy : Z) (hex : string)
    (r g b : Z) (ref : Z * Z * Z * Z) :
  Z.of_nat (length data) = W * H * 4 ->
  inBounds W H sx sy ->
  parseFill hex = (Some r, Some g, Some b) ->
  isByte r -> isByte g -> isByte b ->
  pixelAt data (sy * W + sx) = Some ref ->
  ref <> (r, g, b, 255) ->
  exists res,
    floodFill data sx sy hex W H = Some res
    /\ length res = length data
    /\ (forall x y, inBounds W H x y ->
         (Region W H sx sy (similar data ref W) x y ->
          pixelAt res (y * W + x) = Some (r, g, b, 255))
         /\ (~ Region W H sx sy (similar data ref W) x y ->
             pixelAt res (y * W + x) = pixelAt data (y * W + x)))
    /\ (forall order fuel,
         Permutation order sourceOrder -> (enoughFuel W H <= fuel)%nat ->
         floodFillWith (pushInOrder order) fuel data sx sy hex W H = Some res).
Proof.
  intros Hlen Hseed Hparse Hr Hg Hb Href Hne.
  assert (sameColor data ((sy * W + sx) * 4) (Some r) (Some g) (Some b) = false)
    as Hsame.
  { destruct (sameColor _ _ _ _ _) eqn:E; [|reflexivity].
    apply sameColor_true in E as (r' & g' & b' & Er & Eg & Eb & E).
    congruence. }
  assert (fillPixel (Some r) (Some g) (Some b) (Some 255) = (r, g, b, 255)) as Hfill.
  { unfold fillPixel. rewrite !clamp_byte by (unfold isByte in *; lia).
    reflexivity. }
  destruct (floodFillRun_cases pushNeighbors (enoughFuel W H) data sx sy hex W H
              _ _ _ pushNeighbors_ok (Nat.le_refl _) Hparse)
    as [(E & _)|(_ & st & log & Erun & Eloop)]; [congruence|].
  destruct (call_loop_Inv _ _ data sx sy W H _ _ _ pushNeighbors_ok Hlen st log Eloop)
    as (HI & He).
  exists (FloodFill.data st). split; [|split; [|split]].
  - unfold floodFill, floodFillWith. now rewrite Erun.
  - apply (inv_data_length _ HI).
  - intros x y Hin.
    destruct (Inv_final_pixel _ _ _ _ _ _ _ _ _ _ _ _ _ st x y HI He Hin)
      as [(Hreg & _ & Hpix)|(Hreg & _ & Hpix)].
    + split; [intros _; now rewrite Hpix, Hfill|].
      intros Hn. exfalso. apply Hn. revert Hreg. apply Region_impl.
      intros x' y' _. now apply okOrig_similar.
    + split; [|intros _; assumption].
      intros Hs. exfalso. apply Hreg. revert Hs. apply Region_impl.
      intros x' y' _. now apply okOrig_similar.
  - intros order fuel Hperm Hfuel.
    destruct (floodFillRun_cases (pushInOrder order) fuel data sx sy hex W H
                _ _ _ (pushInOrder_ok order Hperm) Hfuel Hparse)
      as [(E & _)|(_ & st2 & log2 & Erun2 & Eloop2)]; [congruence|].
    destruct (call_loop_Inv _ _ data sx sy W H _ _ _ (pushInOrder_ok order Hperm)
                Hlen st2 log2 Eloop2) as (HI2 & He2).
    unfold floodFillWith. rewrite Erun2. f_equal.
    destruct Hseed as [? ?].
    eapply Inv_final_unique; eauto; lia.
Qed.

Lemma floodFill_paints_region_witness :
  exists res,
    floodFill sample 0 0 "#ef4444" 2 2 = Some res
    /\ length res = length sample
    /\ (forall x y, inBounds 2 2 x y ->
         (Region 2 2 0 0 (similar sample (255, 255, 255, 255) 2) x y ->
          pixelAt res (y * 2 + x) = Some (239, 68, 68, 255))
         /\ (~ Region 2 2 0 0 (similar sample (255, 255, 255, 255) 2) x y ->
             pixelAt res (y * 2 + x) = pixelAt sample (y * 2 + x)))
    /\ (forall order fuel,
         Permutation order sourceOrder -> (enoughFuel 2 2 <= fuel)%nat ->
         floodFillWith (pushInOrder order) fuel sample 0 0 "#ef4444" 2 2 = Some res).
Proof.
  apply (floodFill_paints_region sample 2 2 0 0 "#ef4444" 239 68 68
           (255, 255, 255, 255)).
  - reflexivity.
  - unfold inBounds. lia.
  - reflexivity.
  - unfold isByte. lia.
  - unfold isByte. lia.
  - unfold isByte. lia.
  - reflexivity.
  - discriminate.
Defined.

(** C2.  For a grid with [W >= 1] and [H >= 1] (and any seed and colour), the
    loop of [floodFill] ends with an empty stack after at most [4 * W * H + 1]
    iterations, so that the call returns; the iterations that executed
    [seen[i] = 1] did so for pairwise different pixels [i] of the grid, at
    most [W * H] of them, and these are exactly the pixels marked at the end.
    More iterations than [enoughFuel] allow the same run. *)
Theorem floodFill_terminates_marks_once (data : list Z) (W H sx sy : Z)
    (hex : string) :
  1 <= W -> 1 <= H ->
  (exists res, floodFill data sx sy hex W H = Some res)
  /\ (forall fuel, (enoughFuel W H <= fuel)%nat ->
        floodFillRun pushNeighbors fuel data sx sy hex W H
        = floodFillRun pushNeighbors (enoughFuel W H) data sx sy hex W H)
  /\ match floodFillRun pushNeighbors (enoughFuel W H) data sx sy hex W H with
     | SameColor => True
     | Looped st log =>
         stack st = []
         /\ Z.of_nat (length log) <= 4 * (W * H) + 1
         /\ List.NoDup (marked log)
         /\ Z.of_nat (length (marked log)) <= W * H
         /\ (forall i, In i (marked log) -> 0 <= i < W * H)
         /\ (forall i, In i (marked log) <-> JS.get (seen st) i = Some 1)
     | OutOfFuel => False
     end.
Proof.
  intros HW HH.
  destruct (parseFill hex) as [[r g] b] eqn:Hparse.
  assert (forall fuel, (enoughFuel W H <= fuel)%nat ->
            floodFillRun pushNeighbors fuel data sx sy hex W H
            = floodFillRun pushNeighbors (enoughFuel W H) data sx sy hex W H)
    as Hfuel.
  { intros fuel Hle.
    rewrite !(floodFillRun_unfold _ _ _ _ _ _ _ _ _ _ _ Hparse).
    destruct (FloodFill.sameColor _ _ _ _ _); [reflexivity|].
    destruct (call_loop_ends pushNeighbors (enoughFuel W H) data sx sy W H r g b
                pushNeighbors_ok (Nat.le_refl _)) as (st & log & E & _).
    rewrite E. now rewrite (runLoop_more_fuel _ _ _ _ _ _ _ _ _ _ _ _ _ _ _ E Hle). }
  split; [|split; [exact Hfuel|]].
  - unfold floodFill, floodFillWith.
    destruct (floodFillRun_cases pushNeighbors (enoughFuel W H) data sx sy hex W H
                _ _ _ pushNeighbors_ok (Nat.le_refl _) Hparse)
      as [(_ & ->)|(_ & st & log & -> & _)]; eauto.
  - rewrite (floodFillRun_unfold _ _ _ _ _ _ _ _ _ _ _ Hparse).
    destruct (FloodFill.sameColor _ _ _ _ _); [exact I|].
    destruct (call_loop_ends pushNeighbors (enoughFuel W H) data sx sy W H r g b
                pushNeighbors_ok (Nat.le_refl _)) as (st & log & E & He & Hn & Hm).
    rewrite E.
    destruct (runLoop_marked _ _ _ _ _ _ _ _ _ _ _ _ _ _ _ E) as (Hnd & Hmk & _ & Hback).
    { simpl. apply length_replicate. }
    unfold enoughFuel in Hn.
    repeat split; try assumption; try nia.
    + now apply Hmk.
    + now apply Hmk.
    + now apply Hmk.
    + intros Hs. apply Hback in Hs as [Hs|Hs]; [|assumption].
      simpl in Hs. unfold JS.get in Hs. destruct (i <? 0); [discriminate|].
      apply lookup_replicate in Hs as [? _]. discriminate.
Qed.

Lemma floodFill_terminates_marks_once_witness :
  (exists res, floodFill sample 0 0 "#ef4444" 2 2 = Some res)
  /\ (forall fuel, (enoughFuel 2 2 <= fuel)%nat ->
        floodFillRun pushNeighbors fuel sample 0 0 "#ef4444" 2 2
        = floodFillRun pushNeighbors (enoughFuel 2 2) sample 0 0 "#ef4444" 2 2)
  /\ match floodFillRun pushNeighbors (enoughFuel 2 2) sample 0 0 "#ef4444" 2 2 with
     | SameColor => True
     | Looped st log =>
         stack st = []
         /\ Z.of_nat (length log) <= 4 * (2 * 2) + 1
         /\ List.NoDup (marked log)
         /\ Z.of_nat (length (marked log)) <= 2 * 2
         /\ (forall i, In i (marked log) -> 0 <= i < 2 * 2)
         /\ (forall i, In i (marked log) <-> JS.get (seen st) i = Some 1)
     | OutOfFuel => False
     end.
Proof.
  apply (floodFill_terminates_marks_once sample 2 2 0 0 "#ef4444"); lia.
Defined.

Lemma runLoop_empty W H sR sG sB sA r g b a push (fuel : nat) (st : LoopState) :
  stack st = [] ->
  runLoop W H sR sG sB sA r g b a push fuel st = Some (st, []).
Proof. intros E. destruct fuel; simpl; now rewrite E. Qed.

Lemma Region_ok_or_seed (W H sx sy : Z) (ok : Z -> Z -> Prop) (x y : Z) :
  Region W H sx sy ok x y -> (x = sx /\ y = sy) \/ ok x y.
Proof. intros Hreg. destruct Hreg; auto. Qed.

(** C3.  With the reference colour [q] read at the seed, a pixel of colour
    [p] passes [matchColor] exactly when the sum over the four channels
    (alpha included) of the squared differences is below 12000.  An iteration
    that pops an unmarked pixel of the grid paints it, marks it and pushes
    its neighbours when its current colour is at squared distance below
    12000, and changes nothing (data, markers, rest of the stack) at 12000 or
    more.  At the end of the call, a pixel of the grid that was at 12000 or
    more is as before the call, unmarked, and was never marked. *)
Theorem matchColor_threshold (data : list Z) (W H sx sy : Z) (hex : string)
    (x y : Z) (p q : Z * Z * Z * Z) :
  Z.of_nat (length data) = W * H * 4 ->
  inBounds W H x y ->
  pixelAt data (y * W + x) = Some p ->
  pixelAt data (sy * W + sx) = Some q ->
  let i0 := sy * W + sx in
  let sR := JS.get data (i0 * 4) in
  let sG := JS.get data (i0 * 4 + 1) in
  let sB := JS.get data (i0 * 4 + 2) in
  let sA := JS.get data (i0 * 4 + 3) in
  (matchColor sR sG sB sA data ((y * W + x) * 4) = true <-> sqDist p q < 12000)
  /\ (forall r g b a push st p',
        isSeen (seen st) (y * W + x) = false ->
        pixelAt (FloodFill.data st) (y * W + x) = Some p' ->
        (sqDist p' q < 12000 ->
         loopBody W H sR sG sB sA r g b a push x y st
         = (mkLoop (colorPixel r g b a (FloodFill.data st) ((y * W + x) * 4))
                   (JS.set (seen st) (y * W + x) 1)
                   (push x y (stack st)),
            Filled (y * W + x)))
        /\ (12000 <= sqDist p' q ->
            loopBody W H sR sG sB sA r g b a push x y st = (st, NoMatch)))
  /\ (12000 <= sqDist p q ->
      match floodFillRun pushNeighbors (enoughFuel W H) data sx sy hex W H with
      | Looped st log =>
          pixelAt (FloodFill.data st) (y * W + x) = Some p
          /\ JS.get (seen st) (y * W + x) = Some 0
          /\ ~ In (y * W + x) (marked log)
      | SameColor => True
      | OutOfFuel => False
      end).
Proof.
  intros Hlen Hin Hp Hq. cbv zeta.
  assert (forall d p', pixelAt d (y * W + x) = Some p' ->
            matchColor (JS.get data ((sy * W + sx) * 4))
                       (JS.get data ((sy * W + sx) * 4 + 1))
                       (JS.get data ((sy * W + sx) * 4 + 2))
                       (JS.get data ((sy * W + sx) * 4 + 3))
                       d ((y * W + x) * 4)
            = (sqDist p' q <? 12000))
    as Hmatch.
  { intros d p' E. now rewrite matchColor_pixelAt, refPixel_at, E, Hq. }
  split; [|split].
  - rewrite (Hmatch _ _ Hp). apply Z.ltb_lt.
  - intros r g b a push [d s stk] p' Hs Hp'. simpl in Hs, Hp'.
    destruct (loopBody_cases W H (JS.get data ((sy * W + sx) * 4))
                (JS.get data ((sy * W + sx) * 4 + 1))
                (JS.get data ((sy * W + sx) * 4 + 2))
                (JS.get data ((sy * W + sx) * 4 + 3)) r g b a push x y d s stk)
      as [(Hout & _)|[(_ & Hs' & _)|[(_ & _ & Hm & E)|(_ & _ & Hm & E)]]];
      try contradiction; try congruence;
      rewrite (Hmatch _ _ Hp') in Hm; simpl; rewrite E; split; intros Hd;
      try reflexivity; lia.
  - intros Hfar.
    destruct (parseFill hex) as [[r g] b] eqn:Hparse.
    destruct (floodFillRun_cases pushNeighbors (enoughFuel W H) data sx sy hex W H
                _ _ _ pushNeighbors_ok (Nat.le_refl _) Hparse)
      as [(_ & ->)|(_ & st & log & -> & Eloop)]; [exact I|].
    destruct (call_loop_Inv _ _ data sx sy W H _ _ _ pushNeighbors_ok Hlen st log Eloop)
      as (HI & He).
    destruct (runLoop_marked _ _ _ _ _ _ _ _ _ _ _ _ _ _ _ Eloop) as (_ & Hmk & _).
    { simpl. apply length_replicate. }
    destruct (Inv_final_pixel _ _ _ _ _ _ _ _ _ _ _ _ _ st x y HI He Hin)
      as [(Hreg & _ & _)|(_ & Hs & Hpix)].
    + exfalso. apply Region_ok_or_seed in Hreg as [[-> ->]|Hok].
      * rewrite Hp in Hq. injection Hq as ->.
        rewrite sqDist_self in Hfar. lia.
      * unfold okOrig in Hok.
        rewrite (Hmatch _ _ Hp) in Hok. apply Z.ltb_lt in Hok. lia.
    + repeat split; [congruence | assumption |].
      intros Hmem. apply Hmk in Hmem as (_ & _ & Hone). congruence.
Qed.

Lemma matchColor_threshold_witness :
  (matchColor (Some 255) (Some 255) (Some 255) (Some 255) sample 4 = true
   <-> sqDist (0, 0, 0, 255) (255, 255, 255, 255) < 12000)
  /\ match floodFillRun pushNeighbors (enoughFuel 2 2) sample 0 0 "#ef4444" 2 2 with
     | Looped st log =>
         pixelAt (FloodFill.data st) 1 = Some (0, 0, 0, 255)
         /\ JS.get (seen st) 1 = Some 0
         /\ ~ In 1 (marked log)
     | SameColor => True
     | OutOfFuel => False
     end.
Proof.
  assert (inBounds 2 2 1 0) as Hin by (unfold inBounds; lia).
  destruct (matchColor_threshold sample 2 2 0 0 "#ef4444" 1 0
              (0, 0, 0, 255) (255, 255, 255, 255)
              eq_refl Hin eq_refl eq_refl) as (Hiff & _ & Hfar).
  split; [exact Hiff|].
  apply Hfar. vm_compute. discriminate.
Defined.

(** C4.  When the pixel read at the seed already holds the fill colour on all
    four channels (the alpha of the fill colour being 255), [floodFill]
    returns at once and the buffer is the one it was given. *)
Theorem floodFill_same_color_noop (data : list Z) (W H sx sy : Z) (hex : string)
    (r g b : Z) :
  inBounds W H sx sy ->
  parseFill hex = (Some r, Some g, Some b) ->
  pixelAt data (sy * W + sx) = Some (r, g, b, 255) ->
  floodFillRun pushNeighbors (enoughFuel W H) data sx sy hex W H = SameColor
  /\ floodFill data sx sy hex W H = Some data.
Proof.
  intros _ Hparse Hpix.
  assert (floodFillRun pushNeighbors (enoughFuel W H) data sx sy hex W H = SameColor)
    as E.
  { rewrite (floodFillRun_unfold _ _ _ _ _ _ _ _ _ _ _ Hparse).
    replace (FloodFill.sameColor _ _ _ _ _) with true; [reflexivity|].
    symmetry. apply sameColor_true. exists r, g, b. auto. }
  split; [exact E|]. unfold floodFill, floodFillWith. now rewrite E.
Qed.

Lemma floodFill_same_color_noop_witness :
  floodFillRun pushNeighbors (enoughFuel 2 2) sample 0 0 "#ffffff" 2 2 = SameColor
  /\ floodFill sample 0 0 "#ffffff" 2 2 = Some sample.
Proof.
  apply (floodFill_same_color_noop sample 2 2 0 0 "#ffffff" 255 255 255).
  - unfold inBounds. lia.
  - reflexivity.
  - reflexivity.
Defined.

(** C5.  For a seed outside the grid [floodFill] returns normally and the
    buffer is the one it was given: the only coordinate on the stack is
    dropped by the bounds test of the loop (or the function returns at the
    colour test before it). *)
Theorem floodFill_out_of_bounds_noop (data : list Z) (W H sx sy : Z)
    (hex : string) :
  ~ inBounds W H sx sy ->
  floodFill data sx sy hex W H = Some data.
Proof.
  intros Hout. destruct (parseFill hex) as [[r g] b] eqn:Hparse.
  unfold floodFill, floodFillWith.
  rewrite (floodFillRun_unfold _ _ _ _ _ _ _ _ _ _ _ Hparse).
  destruct (FloodFill.sameColor _ _ _ _ _); [reflexivity|].
  unfold enoughFuel. cbn [runLoop FloodFill.stack FloodFill.data FloodFill.seen].
  match goal with
  | |- context [loopBody ?W ?H ?sR ?sG ?sB ?sA ?r ?g ?b ?a ?push ?x ?y (mkLoop ?d ?s ?k)] =>
      destruct (loopBody_cases W H sR sG sB sA r g b a push x y d s k)
        as [(_ & ->)|[(Hin & _)|[(Hin & _)|(Hin & _)]]]; try contradiction
  end.
  rewrite runLoop_empty by reflexivity. reflexivity.
Qed.

Lemma floodFill_out_of_bounds_noop_witness :
  floodFill sample 2 0 "#ef4444" 2 2 = Some sample.
Proof.
  apply (floodFill_out_of_bounds_noop sample 2 2 2 0 "#ef4444").
  unfold inBounds. lia.
Defined.

(** C10, as the code has it.  After a call of [floodFill] on a buffer of
    [W * H] pixels, whatever the seed and whatever the colour string, the
    buffer has the same size and each of its pixels either holds the four
    bytes it held before the call or holds the four bytes that [colorPixel]
    stores for the parsed colour: each of [r], [g], [b] clamped to 0..255,
    [NaN] stored as 0, and 255 for alpha.  When the three channels parse to
    bytes, as for every [#rrggbb], these are [(r, g, b, 255)]. *)
Theorem floodFill_pixel_old_or_stored (data : list Z) (W H sx sy : Z)
    (hex : string) (r g b : JS.Num) :
  Z.of_nat (length data) = W * H * 4 ->
  parseFill hex = (r, g, b) ->
  exists res,
    floodFill data sx sy hex W H = Some res
    /\ length res = length data
    /\ (forall i, 0 <= i < W * H ->
         pixelAt res i = pixelAt data i
         \/ pixelAt res i
            = Some (JS.toUint8Clamp r, JS.toUint8Clamp g, JS.toUint8Clamp b, 255))
    /\ (forall r' g' b',
         r = Some r' -> g = Some g' -> b = Some b' ->
         isByte r' -> isByte g' -> isByte b' ->
         (JS.toUint8Clamp r, JS.toUint8Clamp g, JS.toUint8Clamp b, 255)
         = (r', g', b', 255)).
Proof.
  intros Hlen Hparse.
  assert (forall r' g' b',
            r = Some r' -> g = Some g' -> b = Some b' ->
            isByte r' -> isByte g' -> isByte b' ->
            (JS.toUint8Clamp r, JS.toUint8Clamp g, JS.toUint8Clamp b, 255)
            = (r', g', b', 255)) as Hbytes.
  { intros r' g' b' -> -> -> Hr Hg Hb. now rewrite !clamp_byte. }
  unfold floodFill, floodFillWith.
  destruct (floodFillRun_cases pushNeighbors (enoughFuel W H) data sx sy hex W H
              _ _ _ pushNeighbors_ok (Nat.le_refl _) Hparse)
    as [(_ & ->)|(_ & st & log & -> & Eloop)].
  - exists data. auto.
  - destruct (call_loop_Inv _ _ data sx sy W H _ _ _ pushNeighbors_ok Hlen st log Eloop)
      as (HI & He).
    exists (FloodFill.data st). split; [reflexivity|].
    split; [apply (inv_data_length _ HI)|]. split; [|exact Hbytes].
    intros i Hi. destruct (seen_bit_at _ _ _ _ _ _ _ _ _ _ _ _ _ st i HI Hi) as [Hs|Hs].
    + left. now apply (inv_untouched _ HI).
    + right. rewrite (inv_painted _ HI i Hi Hs). reflexivity.
Qed.

Lemma floodFill_pixel_old_or_stored_witness :
  exists res,
    floodFill sample 0 0 "#-f44zz" 2 2 = Some res
    /\ length res = length sample
    /\ (forall i, 0 <= i < 2 * 2 ->
         pixelAt res i = pixelAt sample i
         \/ pixelAt res i = Some (0, 68, 0, 255))
    /\ (forall r' g' b',
         Some (-15) = Some r' -> Some 68 = Some g' -> @None Z = Some b' ->
         isByte r' -> isByte g' -> isByte b' ->
         (0, 68, 0, 255) = (r', g', b', 255)).
Proof.
  apply (floodFill_pixel_old_or_stored sample 2 2 0 0 "#-f44zz"
           (Some (-15)) (Some 68) None).
  - reflexivity.
  - reflexivity.
Defined.

(** C10 as stated fails: the colour string is not validated, and a pixel
    painted for ["#fff"] (whose blue channel does not parse) is neither as
    before the call nor a colour [(r, g, b, 255)] read from the string; nor
    is one painted for ["#-f0000"], whose red channel parses to -15. *)
Lemma floodFill_paints_unparsed_colour :
  parseFill "#fff" = (Some 255, Some 15, None)
  /\ floodFill sample 0 0 "#fff" 2 2
     = Some [255; 15; 0; 255;  0; 0; 0; 255;
             255; 15; 0; 255;  255; 15; 0; 255]
  /\ pixelAt [255; 15; 0; 255;  0; 0; 0; 255;
              255; 15; 0; 255;  255; 15; 0; 255] 0
     <> pixelAt sample 0
  /\ ~ (exists r g b,
          parseFill "#fff" = (Some r, Some g, Some b)
          /\ pixelAt [255; 15; 0; 255;  0; 0; 0; 255;
                      255; 15; 0; 255;  255; 15; 0; 255] 0
             = Some (r, g, b, 255))
  /\ parseFill "#-f0000" = (Some (-15), Some 0, Some 0)
  /\ floodFill sample 0 0 "#-f0000" 2 2
     = Some [0; 0; 0; 255;  0; 0; 0; 255;
             0; 0; 0; 255;  0; 0; 0; 255]
  /\ pixelAt [0; 0; 0; 255;  0; 0; 0; 255;
              0; 0; 0; 255;  0; 0; 0; 255] 0
     <> pixelAt sample 0
  /\ pixelAt [0; 0; 0; 255;  0; 0; 0; 255;
              0; 0; 0; 255;  0; 0; 0; 255] 0
     <> Some (-15, 0, 0, 255).
Proof.
  split; [reflexivity|]. split; [vm_compute; reflexivity|].
  split; [discriminate|]. split.
  - intros (r & g & b & E & _). discriminate E.
  - split; [reflexivity|]. split; [vm_compute; reflexivity|].
    split; discriminate.
Qed.

End FloodFillSpec.

(** ** The history of the canvas *)

Module CanvasFacts.

Import Canvas.

Lemma pushSnapshot_cases (prev : list (list Z)) (cur : list Z) :
  pushSnapshot prev cur
  = if (length prev <? 20)%nat then prev ++ [cur] else tail (prev ++ [cur]).
Proof.
  unfold pushSnapshot. rewrite length_app. simpl.
  destruct (Nat.ltb_spec 20 (length prev + 1)), (Nat.ltb_spec (length prev) 20);
    try reflexivity; lia.
Qed.

Lemma pushSnapshot_length (prev : list (list Z)) (cur : list Z) :
  length (pushSnapshot prev cur)
  = if (length prev <? 20)%nat then S (length prev) else length prev.
Proof.
  rewrite pushSnapshot_cases. destruct (Nat.ltb_spec (length prev) 20).
  - rewrite length_app. simpl. lia.
  - destruct prev as [|x prev']; simpl in *; [lia|].
    rewrite length_app. simpl. lia.
Qed.

(** The history after a push: the last 20 entries of the extended list. *)
Lemma pushSnapshot_drop (prev : list (list Z)) (cur : list Z) :
  (length prev <= 20)%nat ->
  pushSnapshot prev cur = drop (length (prev ++ [cur]) - 20) (prev ++ [cur]).
Proof.
  intros Hle. rewrite pushSnapshot_cases, length_app. simpl.
  destruct (Nat.ltb_spec (length prev) 20).
  - replace (length prev + 1 - 20)%nat with 0%nat by lia. reflexivity.
  - replace (length prev + 1 - 20)%nat with 1%nat by lia.
    destruct (prev ++ [cur]); reflexivity.
Qed.

Lemma last_removelast (A : Type) (l : list A) :
  (2 <= length l)%nat -> exists x, last (removelast l) = Some x.
Proof.
  intros Hl. destruct (removelast l) as [|y l'] eqn:E.
  - apply (f_equal (@length A)) in E.
    rewrite removelast_firstn_len, length_take in E. simpl in E. lia.
  - apply last_is_Some. discriminate.
Qed.

Section Component.

Context {browser : Renderer}.

(** What an event can do to the history. *)
Lemma step_history (st : State) (e : Event) :
  history (step st e) = history st
  \/ (exists cur, history (step st e) = pushSnapshot (history st) cur)
  \/ (exists cur, history (step st e) = [cur])
  \/ ((1 < length (history st))%nat
      /\ history (step st e) = removelast (history st)).
Proof.
  destruct e as [primary tool color bs pos | tool color bs pos | | t | t | img | img];
    simpl.
  - unfold startDrawing. destruct primary; simpl; [|auto].
    destruct (isBucket tool); [|auto].
    right. left.
    destruct (FloodFill.floodFill _ _ _ _ _ _); eexists; reflexivity.
  - unfold handleMove. destruct (isDrawing st); [|auto].
    destruct (lastPos st); [|auto]. destruct (isBucket tool); auto.
  - unfold stopDrawing. destruct (isDrawing st); [|auto].
    right. left. eexists. reflexivity.
  - unfold clearEffect. destruct (t =? 0); [auto|].
    right. left. eexists. reflexivity.
  - unfold undoEffect.
    destruct ((t =? 0) || (t =? prevTriggerUndo st)); [auto|]. simpl.
    destruct (Nat.ltb_spec 1 (length (history st))); [|auto].
    destruct (last (removelast (history st))); [|auto].
    right. right. right. auto.
  - right. left. eexists. reflexivity.
  - right. right. left. eexists. reflexivity.
Qed.

Lemma step_history_bounded (st : State) (e : Event) :
  (length (history st) <= 20)%nat -> (length (history (step st e)) <= 20)%nat.
Proof.
  intros Hle.
  destruct (step_history st e) as [->|[(cur & ->)|[(cur & ->)|(_ & ->)]]].
  - assumption.
  - rewrite pushSnapshot_length. destruct (Nat.ltb_spec (length (history st)) 20); lia.
  - simpl. lia.
  - rewrite removelast_firstn_len, length_take. lia.
Qed.

Lemma step_history_nonempty (st : State) (e : Event) :
  history st <> [] -> history (step st e) <> [].
Proof.
  intros Hne.
  destruct (step_history st e) as [->|[(cur & ->)|[(cur & ->)|(Hlt & ->)]]].
  - assumption.
  - intros E. apply (f_equal (@length _)) in E.
    rewrite pushSnapshot_length in E.
    destruct (Nat.ltb_spec (length (history st)) 20); simpl in E; lia.
  - discriminate.
  - intros E. apply (f_equal (@length _)) in E.
    rewrite removelast_firstn_len, length_take in E. simpl in E. lia.
Qed.

Lemma run_invariant (P : State -> Prop) (st : State) (events : list Event) :
  (forall st e, P st -> P (step st e)) -> P st -> P (run st events).
Proof.
  intros Hstep. revert st. unfold run.
  induction events as [|e es IH]; intros st HP; simpl; auto.
Qed.

(** The history after a series of committed gestures. *)
Lemma commits_history (st : State) (snaps : list (list Z)) :
  (length (history st) <= 20)%nat ->
  history (fold_left commit snaps st)
  = drop (length (history st ++ snaps) - 20) (history st ++ snaps).
Proof.
  revert st. induction snaps as [|p ps IH]; intros st Hle; simpl.
  - rewrite app_nil_r. replace (length (history st) - 20)%nat with 0%nat by lia.
    reflexivity.
  - assert (history (commit st p) = pushSnapshot (history st) p) as Hc by reflexivity.
    rewrite IH.
    2:{ rewrite Hc, pushSnapshot_length.
        destruct (Nat.ltb_spec (length (history st)) 20); lia. }
    rewrite Hc, pushSnapshot_drop by assumption.
    replace (history st ++ p :: ps) with ((history st ++ [p]) ++ ps)
      by (rewrite <- app_assoc; reflexivity).
    set (A := history st ++ [p]).
    assert (length A - 20 <= length A)%nat as Hk by lia.
    assert (length A = S (length (history st))) as HA
      by (unfold A; rewrite length_app; simpl; lia).
    rewrite !length_app, length_drop.
    rewrite <- (drop_app_le A ps (length A - 20)) by lia.
    rewrite drop_drop. f_equal. lia.
Qed.

(** The undo effect for a trigger that was not handled yet. *)
Lemma undoEffect_fresh (t : Z) (st : State) :
  t <> 0 -> t <> prevTriggerUndo st ->
  ((length (history st) <= 1)%nat ->
   undoEffect t st = setPrevTriggerUndo t st)
  /\ ((2 <= length (history st))%nat ->
      exists previousState,
        last (removelast (history st)) = Some previousState
        /\ undoEffect t st
           = setHistory (removelast (history st))
               (putImageData previousState (setPrevTriggerUndo t st))).
Proof.
  intros H0 Hp. unfold undoEffect.
  destruct (Z.eqb_spec t 0); [contradiction|].
  destruct (Z.eqb_spec t (prevTriggerUndo st)); [contradiction|]. simpl.
  split; intros Hl.
  - destruct (Nat.ltb_spec 1 (length (history st))); [lia|reflexivity].
  - destruct (Nat.ltb_spec 1 (length (history st))); [|lia].
    destruct (last_removelast _ (history st) Hl) as [prev E].
    exists prev. rewrite E. auto.
Qed.

(** [n] presses of "undo" on an application whose trigger was handled. *)
Lemma pressUndo_iter (n : nat) (t : Z) (st : State) :
  0 <= t -> prevTriggerUndo st = t ->
  let app := Nat.iter n pressUndo (t, st) in
  let h := history st in
  fst app = t + Z.of_nat n
  /\ prevTriggerUndo (snd app) = t + Z.of_nat n
  /\ history (snd app) = take (length h - Nat.min n (length h - 1)) h
  /\ ((1 <= n)%nat -> (2 <= length h)%nat ->
      last (history (snd app)) = Some (pixels (snd app))).
Proof.
  intros Ht Hprev. induction n as [|n IH]; cbn zeta.
  - simpl. rewrite Z.add_0_r, Nat.sub_0_r, firstn_all. repeat split; auto. lia.
  - cbn zeta in IH. destruct IH as (Hf & Hp & Hh & Hpix).
    change (Nat.iter (S n) pressUndo (t, st))
      with (pressUndo (Nat.iter n pressUndo (t, st))).
    destruct (Nat.iter n pressUndo (t, st)) as [tn stn].
    simpl in Hf, Hp, Hh, Hpix. unfold pressUndo. cbn [fst snd].
    subst tn.
    destruct (undoEffect_fresh (t + Z.of_nat n + 1) stn) as [Hshort Hlong];
      [lia | lia |].
    set (h := history st) in *.
    assert (length (history stn) = length h - Nat.min n (length h - 1))%nat as Hlen.
    { rewrite Hh, length_take. lia. }
    split; [lia|].
    destruct (Nat.le_gt_cases (length (history stn)) 1) as [Hc|Hc].
    + rewrite Hshort by assumption.
      cbn [history prevTriggerUndo pixels setPrevTriggerUndo].
      split; [lia|]. split.
      * rewrite Hh. f_equal. lia.
      * intros _ Hl. apply Hpix; lia.
    + destruct Hlong as (prev & Elast & ->); [lia|].
      cbn [history prevTriggerUndo pixels setPrevTriggerUndo setHistory
           putImageData setPixels].
      split; [lia|]. split.
      * rewrite Hh, removelast_firstn_len, length_take, take_take. f_equal. lia.
      * intros _ _. assumption.
Qed.

End Component.

End CanvasFacts.

(** ** The canvas: what the specification states *)

Module CanvasSpec.

Import Canvas CanvasFacts.

(** C6.  [saveHistory] appends the snapshot and, when that makes more than
    20 entries, removes the entry at index 0.  So a history of at most 20
    entries has at most 20 entries after any number of pushes and after any
    series of events.  After 25 committed gestures the history holds the
    last 20 snapshots; each of the first 19 presses of "undo" then removes
    one entry and puts the snapshot now on top on the canvas, and from the
    19th press on the history is reduced to its oldest entry and further
    presses change neither the history nor the canvas. *)
Theorem history_capped_at_20 {browser : Renderer} :
  (forall prev cur,
     pushSnapshot prev cur
     = if (length prev <? 20)%nat then prev ++ [cur] else tail (prev ++ [cur]))
  /\ (forall prev snaps,
       (length prev <= 20)%nat ->
       (length (fold_left pushSnapshot snaps prev) <= 20)%nat)
  /\ (forall st events,
       (length (history st) <= 20)%nat ->
       (length (history (run st events)) <= 20)%nat)
  /\ (forall st snaps t,
       (length (history st) <= 20)%nat -> length snaps = 25%nat ->
       0 <= t -> prevTriggerUndo st = t ->
       let st25 := fold_left commit snaps st in
       history st25 = drop (length (history st) + 5) (history st ++ snaps)
       /\ length (history st25) = 20%nat
       /\ forall n,
           let st' := snd (Nat.iter n pressUndo (t, st25)) in
           ((n <= 19)%nat -> length (history st') = (20 - n)%nat)
           /\ ((1 <= n)%nat -> last (history st') = Some (pixels st'))
           /\ ((19 <= n)%nat ->
               history st' = take 1 (history st25)
               /\ pixels st' = pixels (snd (Nat.iter 19 pressUndo (t, st25))))).
Proof.
  split; [exact pushSnapshot_cases|]. split; [|split].
  - intros prev snaps. revert prev.
    induction snaps as [|p ps IH]; intros prev Hle; simpl; [assumption|].
    apply IH. rewrite pushSnapshot_length.
    destruct (Nat.ltb_spec (length prev) 20); lia.
  - intros st events Hle.
    apply (run_invariant (fun s => (length (history s) <= 20)%nat));
      [|assumption].
    intros st' e. apply step_history_bounded.
  - intros st snaps t Hle H25 Ht Hprev st25.
    assert (history st25 = drop (length (history st) + 5) (history st ++ snaps)) as Hh.
    { unfold st25. rewrite commits_history by assumption.
      f_equal. rewrite length_app. lia. }
    assert (length (history st25) = 20%nat) as Hlen.
    { rewrite Hh, length_drop, length_app. lia. }
    assert (prevTriggerUndo st25 = t) as Hprev25.
    { unfold st25. clear -Hprev. revert st Hprev.
      induction snaps as [|p ps IH]; intros st Hprev; simpl; [assumption|].
      apply IH. assumption. }
    split; [exact Hh|]. split; [exact Hlen|].
    intros n st'.
    destruct (pressUndo_iter n t st25 Ht Hprev25) as (_ & _ & Hn & Hpn).
    destruct (pressUndo_iter 19 t st25 Ht Hprev25) as (_ & _ & H19 & Hp19).
    fold st' in Hn, Hpn. rewrite Hlen in Hn, Hpn, H19, Hp19.
    split; [|split].
    + intros Hle19. rewrite Hn, length_take, Hlen. lia.
    + intros H1. apply Hpn; [assumption | lia].
    + intros Hge. replace (20 - Nat.min n (20 - 1))%nat with 1%nat in Hn by lia.
      split; [exact Hn|].
      replace (20 - Nat.min 19 (20 - 1))%nat with 1%nat in H19 by lia.
      specialize (Hpn ltac:(lia) ltac:(lia)). specialize (Hp19 ltac:(lia) ltac:(lia)).
      rewrite Hn in Hpn. rewrite H19 in Hp19. congruence.
Qed.

Lemma history_capped_at_20_witness :
  let st := mount (browser := plainRenderer) 1 1 0 false in
  let st25 := fold_left commit snaps25 st in
  history st25 = drop (length (history st) + 5) (history st ++ snaps25)
  /\ length (history st25) = 20%nat
  /\ forall n,
      let st' := snd (Nat.iter n pressUndo (0, st25)) in
      ((n <= 19)%nat -> length (history st') = (20 - n)%nat)
      /\ ((1 <= n)%nat -> last (history st') = Some (pixels st'))
      /\ ((19 <= n)%nat ->
          history st' = take 1 (history st25)
          /\ pixels st'
             = pixels (snd (Nat.iter 19 pressUndo
                                     (0, st25)))).
Proof.
  apply (proj2 (proj2 (proj2 (history_capped_at_20 (browser := plainRenderer))))
           (mount (browser := plainRenderer) 1 1 0 false) snaps25 0).
  - simpl. lia.
  - reflexivity.
  - lia.
  - reflexivity.
Defined.

(** C7.  The undo effect leaves the canvas and the history as they are when
    the history has at most one entry.  When it has at least two and the
    trigger is a new one, the last entry is removed (the length goes down by
    exactly one) and the canvas holds the snapshot that is now the last
    entry.  A press of "undo" in the application is such a new trigger, and
    running the effect again with the same trigger (as happens when the
    history changes) does nothing more. *)
Theorem undo_pops_and_restores (t : Z) (st : State) :
  ((length (history st) <= 1)%nat ->
   pixels (undoEffect t st) = pixels st
   /\ history (undoEffect t st) = history st)
  /\ ((2 <= length (history st))%nat -> t <> 0 -> t <> prevTriggerUndo st ->
      history (undoEffect t st) = removelast (history st)
      /\ length (history (undoEffect t st)) = (length (history st) - 1)%nat
      /\ last (history (undoEffect t st)) = Some (pixels (undoEffect t st)))
  /\ (0 <= t -> prevTriggerUndo st = t ->
      pressUndo (t, st) = (t + 1, undoEffect (t + 1) st)
      /\ t + 1 <> 0 /\ t + 1 <> prevTriggerUndo st)
  /\ undoEffect t (undoEffect t st) = undoEffect t st.
Proof.
  split; [|split; [|split]]; cycle 3.
  { unfold undoEffect at 2 3.
    destruct ((t =? 0) || (t =? prevTriggerUndo st)) eqn:Eg.
    - unfold undoEffect. now rewrite Eg.
    - assert (forall s, prevTriggerUndo s = t -> undoEffect t s = s) as Hidle.
      { intros s Es. unfold undoEffect. rewrite Es, Z.eqb_refl, orb_true_r.
        reflexivity. }
      cbn [history setPrevTriggerUndo].
      destruct (1 <? length (history st))%nat; [|now apply Hidle].
      destruct (last (removelast (history st))); now apply Hidle. }
  - intros Hl. unfold undoEffect.
    destruct ((t =? 0) || (t =? prevTriggerUndo st)); [auto|]. simpl.
    destruct (Nat.ltb_spec 1 (length (history st))); [lia|]. auto.
  - intros Hl H0 Hp.
    destruct (proj2 (undoEffect_fresh t st H0 Hp) Hl) as (prev & Elast & ->).
    simpl. repeat split.
    + rewrite removelast_firstn_len, length_take. lia.
    + assumption.
  - intros Ht Hp. repeat split; try lia. 
Qed.

Lemma undo_pops_and_restores_witness :
  let st := commit
              (mount (browser := plainRenderer) 1 1 0 false) [7; 7; 7; 255] in
  history (undoEffect 1 st) = removelast (history st)
  /\ length (history (undoEffect 1 st))
     = (length (history st) - 1)%nat
  /\ last (history (undoEffect 1 st))
     = Some (pixels (undoEffect 1 st)).
Proof.
  apply (proj1 (proj2 (undo_pops_and_restores 1
           (commit
              (mount (browser := plainRenderer) 1 1 0 false) [7; 7; 7; 255])))).
  - simpl. lia.
  - discriminate.
  - discriminate.
Defined.

(** C8, as the code has it.  Without a saved canvas, [mount] leaves exactly
    one snapshot in the history, the blank canvas.  With a saved canvas the
    history is empty after [mount]; the load handler of the saved image then
    sets it to exactly one snapshot, the canvas with the image drawn on it.
    No event empties a history that holds a snapshot. *)
Theorem history_initialised {browser : Renderer} :
  (forall w h t,
     let st := mount w h t false in
     pixels st = fillRect background w h (replicate (Z.to_nat (w * h * 4)) 0)
     /\ history st = [pixels st])
  /\ (forall w h t, history (mount w h t true) = [])
  /\ (forall img st,
       pixels (initOnload img st) = drawImage img (width st) (height st) (pixels st)
       /\ history (initOnload img st) = [pixels (initOnload img st)])
  /\ (forall st events, history st <> [] -> history (run st events) <> []).
Proof.
  repeat split.
  intros st events Hne.
  apply (run_invariant (fun s => history s <> [])); [|assumption].
  intros st' e. apply step_history_nonempty.
Qed.

Lemma history_initialised_witness :
  history (run (browser := plainRenderer)
             (mount (browser := plainRenderer) 1 1 0 false)
             [UndoTrigger 1; PointerDown true PENCIL "#000000" 5 (mkPoint 0 0);
              PointerUp; UndoTrigger 2; UndoTrigger 3])
  <> [].
Proof.
  apply (proj2 (proj2 (proj2 (history_initialised (browser := plainRenderer))))).
  discriminate.
Defined.

(** C8 as stated fails: with a saved canvas the history holds no snapshot
    when the surface has been created. *)
Lemma mount_saved_history_not_one :
  length (history (mount (browser := plainRenderer) 1 1 0 true)) <> 1%nat.
Proof. discriminate. Qed.

(** C9.  [draw] strokes with the settings of [drawSettings]; with the eraser
    the stroke style is ["#ffffff"], the fill style of the background (white
    on the three colour channels), whatever the selected colour; with any
    other tool it is the selected colour.  The segments of a gesture are
    drawn by [draw]. *)
Theorem eraser_strokes_background {browser : Renderer} (tool : ToolType)
    (color : string) (brushSize : Z) (start end_ : Point) (st : State) :
  pixels (draw tool color brushSize start end_ st)
  = stroke (drawSettings tool color brushSize start end_)
           (width st) (height st) (pixels st)
  /\ (tool = ERASER ->
      strokeStyle (drawSettings tool color brushSize start end_) = background
      /\ FloodFill.parseFill background = (Some 255, Some 255, Some 255))
  /\ (tool <> ERASER ->
      strokeStyle (drawSettings tool color brushSize start end_) = color)
  /\ (tool <> BUCKET ->
      pixels (startDrawing true tool color brushSize start st)
      = pixels (draw tool color brushSize start start st))
  /\ (tool <> BUCKET -> isDrawing st = true -> lastPos st = Some start ->
      pixels (handleMove tool color brushSize end_ st)
      = pixels (draw tool color brushSize start end_ st)).
Proof.
  split; [reflexivity|]. split; [|split; [|split]].
  - intros ->. split; reflexivity.
  - intros Hne. destruct tool; try reflexivity. contradiction.
  - intros Hne. unfold startDrawing. destruct tool; try reflexivity. contradiction.
  - intros Hne Hd Hl. unfold handleMove. rewrite Hd, Hl.
    destruct tool; try reflexivity. contradiction.
Qed.

Lemma eraser_strokes_background_witness :
  strokeStyle (drawSettings ERASER "#ef4444" 5 (mkPoint 0 0) (mkPoint 1 1))
  = "#ffffff"%string
  /\ strokeStyle (drawSettings BRUSH "#ef4444" 5 (mkPoint 0 0) (mkPoint 1 1))
     = "#ef4444"%string.
Proof.
  split.
  - apply (proj1 (proj2 (eraser_strokes_background (browser := plainRenderer)
             ERASER "#ef4444" 5 (mkPoint 0 0) (mkPoint 1 1)
             (mount (browser := plainRenderer) 1 1 0 false)))).
    reflexivity.
  - apply (proj1 (proj2 (proj2 (eraser_strokes_background (browser := plainRenderer)
             BRUSH "#ef4444" 5 (mkPoint 0 0) (mkPoint 1 1)
             (mount (browser := plainRenderer) 1 1 0 false))))).
    discriminate.
Defined.

End CanvasSpec.

(** ** The cleanup of the generated SVG text *)

Module GeminiFacts.

Import Gemini.

Lemma skip_length (n : nat) (s : string) :
  (String.length (skip n s) <= String.length s)%nat.
Proof.
  revert s. induction n as [|n IH]; intros [|c s]; simpl; try lia.
  specialize (IH s). lia.
Qed.

Lemma removeAllFuel_enough (a : ascii) (pat : string) (f1 f2 : nat) (s : string) :
  (String.length s <= f1)%nat -> (String.length s <= f2)%nat ->
  removeAllFuel f1 (String a pat) s = removeAllFuel f2 (String a pat) s.
Proof.
  revert f2 s. induction f1 as [|f1 IH]; intros f2 s H1 H2.
  - destruct s; [|simpl in H1; lia]. destruct f2; reflexivity.
  - destruct s as [|c s]; [destruct f2; reflexivity|].
    destruct f2 as [|f2]; [simpl in H2; lia|].
    cbn [removeAllFuel]. simpl in H1, H2.
    destruct (startsWith (String a pat) (String c s)).
    + cbn [String.length skip]. pose proof (skip_length (String.length pat) s).
      apply IH; lia.
    + f_equal. apply IH; lia.
Qed.

Lemma removeAll_empty (pat : string) : removeAll pat EmptyString = EmptyString.
Proof. reflexivity. Qed.

Lemma removeAll_match (a : ascii) (pat : string) (c : ascii) (s : string) :
  startsWith (String a pat) (String c s) = true ->
  removeAll (String a pat) (String c s)
  = removeAll (String a pat) (skip (String.length pat) s).
Proof.
  intros E. unfold removeAll. cbn [String.length removeAllFuel]. rewrite E.
  cbn [String.length skip]. pose proof (skip_length (String.length pat) s).
  apply removeAllFuel_enough; lia.
Qed.

Lemma removeAll_nomatch (pat : string) (c : ascii) (s : string) :
  startsWith pat (String c s) = false ->
  removeAll pat (String c s) = String c (removeAll pat s).
Proof.
  intros E. unfold removeAll. cbn [String.length removeAllFuel]. now rewrite E.
Qed.

(** An induction on the text that follows the reading of [removeAll]. *)
Lemma removeAll_ind (a : ascii) (pat : string) (P : string -> string -> Prop) :
  P EmptyString EmptyString ->
  (forall c s, startsWith (String a pat) (String c s) = true ->
     P (skip (String.length pat) s)
       (removeAll (String a pat) (skip (String.length pat) s)) ->
     P (String c s) (removeAll (String a pat) (skip (String.length pat) s))) ->
  (forall c s, startsWith (String a pat) (String c s) = false ->
     P s (removeAll (String a pat) s) ->
     P (String c s) (String c (removeAll (String a pat) s))) ->
  forall s, P s (removeAll (String a pat) s).
Proof.
  intros Hnil Hmatch Hno s.
  remember (String.length s) as n eqn:En.
  assert (String.length s <= n)%nat as Hn by lia. clear En.
  revert s Hn. induction n as [|n IH]; intros s Hn.
  - destruct s; [exact Hnil | simpl in Hn; lia].
  - destruct s as [|c s]; [exact Hnil|]. simpl in Hn.
    destruct (startsWith (String a pat) (String c s)) eqn:E.
    + rewrite (removeAll_match _ _ _ _ E). apply Hmatch; [assumption|].
      apply IH. pose proof (skip_length (String.length pat) s). lia.
    + rewrite (removeAll_nomatch _ _ _ E). apply Hno; [assumption|].
      apply IH. lia.
Qed.

Lemma startsWith_ticks (s : string) :
  startsWith "```" s = true <-> (3 <= leadingTicks s)%nat.
Proof.
  destruct s as [|c1 s]; [simpl; split; [discriminate | lia]|].
  cbn [startsWith leadingTicks]. rewrite (Ascii.eqb_sym "`"%char c1).
  destruct (Ascii.eqb c1 "`"); cbn [andb]; [|split; [discriminate | lia]].
  destruct s as [|c2 s]; [simpl; split; [discriminate | lia]|].
  cbn [startsWith leadingTicks]. rewrite (Ascii.eqb_sym "`"%char c2).
  destruct (Ascii.eqb c2 "`"); cbn [andb]; [|split; [discriminate | lia]].
  destruct s as [|c3 s]; [simpl; split; [discriminate | lia]|].
  cbn [startsWith leadingTicks]. rewrite (Ascii.eqb_sym "`"%char c3).
  destruct (Ascii.eqb c3 "`"); cbn [andb]; [|split; [discriminate | lia]].
  split; [lia|]. intros _. destruct s; reflexivity.
Qed.

Lemma leadingTicks_kept (s : string) :
  (leadingTicks s < 3)%nat -> leadingTicks (removeAll "```" s) = leadingTicks s.
Proof.
  induction s as [|c s IH]; intros Hlt; [reflexivity|].
  rewrite removeAll_nomatch.
  - simpl in *. destruct (Ascii.eqb c "`"); [|reflexivity].
    f_equal. apply IH. lia.
  - destruct (startsWith "```" (String c s)) eqn:E; [|reflexivity].
    apply startsWith_ticks in E. lia.
Qed.

Lemma leadingTicks_removeAll (s : string) :
  (leadingTicks (removeAll "```" s) < 3)%nat.
Proof.
  apply (removeAll_ind "`" "``" (fun _ o => (leadingTicks o < 3)%nat)).
  - simpl. lia.
  - auto.
  - intros c s' E _. rewrite <- (removeAll_nomatch _ _ _ E).
    assert (leadingTicks (String c s') < 3)%nat as Hlt.
    { destruct (Nat.lt_ge_cases (leadingTicks (String c s')) 3) as [?|Hge];
        [assumption|]. apply startsWith_ticks in Hge. congruence. }
    rewrite leadingTicks_kept; assumption.
Qed.

(** After [replace(/```/g, '')] the text holds no three backticks in a row. *)
Lemma removeAll_no_fence (s : string) :
  includes "```" (removeAll "```" s) = false.
Proof.
  apply (removeAll_ind "`" "``" (fun _ o => includes "```" o = false)).
  - reflexivity.
  - auto.
  - intros c s' E IH. cbn [includes]. rewrite IH, orb_false_r.
    rewrite <- (removeAll_nomatch _ _ _ E).
    destruct (startsWith "```" (removeAll "```" (String c s'))) eqn:E2;
      [|reflexivity].
    apply startsWith_ticks in E2.
    pose proof (leadingTicks_removeAll (String c s')). lia.
Qed.

(** A text in which the pattern does not occur is left as it is. *)
Lemma removeAll_absent (a : ascii) (pat s : string) :
  includes (String a pat) s = false -> removeAll (String a pat) s = s.
Proof.
  induction s as [|c s IH]; intros E; [reflexivity|].
  cbn [includes] in E. apply orb_false_iff in E as [E1 E2].
  rewrite removeAll_nomatch by assumption. now rewrite IH.
Qed.

Lemma startsWith_app (p x s : string) :
  startsWith (p ++ x) s = true -> startsWith p s = true.
Proof.
  revert s. induction p as [|a p IH]; intros s E; [destruct s; reflexivity|].
  destruct s as [|c s]; [discriminate|]. simpl in *.
  apply andb_true_iff in E as [-> E]. simpl. now apply IH.
Qed.

Lemma includes_app (p x s : string) :
  includes p s = false -> includes (p ++ x) s = false.
Proof.
  induction s as [|c s IH]; cbn [includes]; intros E;
    apply orb_false_iff in E as [E1 E2].
  - destruct (startsWith (p ++ x) "") eqn:E3; [|reflexivity].
    apply startsWith_app in E3. congruence.
  - rewrite (IH E2), orb_false_r.
    destruct (startsWith (p ++ x) (String c s)) eqn:E3; [|reflexivity].
    apply startsWith_app in E3. congruence.
Qed.

Lemma occurs_startsWith (a : ascii) (pat s : string) :
  occurs a s = false -> includes (String a pat) s = false.
Proof.
  induction s as [|c s IH]; intros E; [reflexivity|].
  simpl in E. apply orb_false_iff in E as [E1 E2].
  cbn [includes startsWith]. rewrite E1. simpl. now apply IH.
Qed.

(** *** Occurrences of a text that the matches cannot touch *)

Section Untouched.

(** The pattern starts with [a]; [q] is a text without [a], whose first
    character is not in the pattern. *)
Variable a : ascii.
Variable pat : string.
Variable q0 : ascii.
Variable q : string.
Hypothesis a_not_in_q : occurs a (String q0 q) = false.
Hypothesis q0_not_in_pat : occurs q0 (String a pat) = false.

Lemma startsWith_kept (x s : string) :
  occurs a x = false ->
  startsWith x s = true -> startsWith x (removeAll (String a pat) s) = true.
Proof.
  revert s. induction x as [|d x IH]; intros s Hx E;
    [destruct (removeAll _ s); reflexivity|].
  destruct s as [|c s]; [discriminate|]. simpl in E, Hx.
  apply andb_true_iff in E as [Ed E].
  apply orb_false_iff in Hx as [Had Hx].
  apply Ascii.eqb_eq in Ed as <-.
  rewrite removeAll_nomatch by (simpl; now rewrite Had).
  simpl. rewrite Ascii.eqb_refl. simpl. now apply IH.
Qed.

Lemma includes_skip (p s : string) :
  occurs q0 p = false -> startsWith p s = true ->
  includes (String q0 q) s = true ->
  includes (String q0 q) (skip (String.length p) s) = true.
Proof.
  revert s. induction p as [|b p IH]; intros s Hp E Hinc; [exact Hinc|].
  destruct s as [|c s]; [discriminate|]. simpl in E, Hp.
  apply andb_true_iff in E as [Eb E].
  apply orb_false_iff in Hp as [Hqb Hp].
  apply Ascii.eqb_eq in Eb as <-.
  cbn [includes startsWith] in Hinc. rewrite Hqb in Hinc. simpl in Hinc.
  cbn [String.length skip]. now apply IH.
Qed.

(** An occurrence of [q] in the text is still there after the matches of the
    pattern were left out. *)
Lemma includes_kept (s : string) :
  includes (String q0 q) s = true ->
  includes (String q0 q) (removeAll (String a pat) s) = true.
Proof.
  apply (removeAll_ind a pat
           (fun s o => includes (String q0 q) s = true ->
                       includes (String q0 q) o = true)).
  - auto.
  - intros c s' E IH Hinc. apply IH.
    change (skip (String.length pat) s')
      with (skip (String.length (String a pat)) (String c s')).
    apply includes_skip; assumption.
  - intros c s' E IH Hinc.
    rewrite <- (removeAll_nomatch _ _ _ E).
    cbn [includes] in Hinc. apply orb_true_iff in Hinc as [Hst|Hinc].
    + apply (startsWith_kept _ _ a_not_in_q) in Hst.
      destruct (removeAll (String a pat) (String c s')); cbn [includes];
        now rewrite Hst.
    + rewrite (removeAll_nomatch _ _ _ E). cbn [includes].
      rewrite (IH Hinc). apply orb_true_r.
Qed.

End Untouched.

Lemma cleanup_keeps_svg (text : string) :
  includes "<svg" text = true -> includes "<svg" (cleanup text) = true.
Proof.
  intros E. unfold cleanup.
  apply (includes_kept "`" "``" "<" "svg"); [reflexivity | reflexivity|].
  apply (includes_kept "`" "``svg" "<" "svg"); [reflexivity | reflexivity|].
  apply (includes_kept "`" "``xml" "<" "svg"); [reflexivity | reflexivity|].
  exact E.
Qed.

Lemma cleanup_no_fence (text : string) : includes "```" (cleanup text) = false.
Proof. unfold cleanup. apply removeAll_no_fence. Qed.

Lemma cleanup_plain (text : string) :
  occurs "`" text = false -> cleanup text = text.
Proof.
  intros E. unfold cleanup.
  rewrite (removeAll_absent "`" "``xml") by now apply occurs_startsWith.
  rewrite (removeAll_absent "`" "``svg") by now apply occurs_startsWith.
  apply (removeAll_absent "`" "``"). now apply occurs_startsWith.
Qed.

Lemma cleanup_fence_free (text : string) :
  includes "```" text = false -> cleanup text = text.
Proof.
  intros E. unfold cleanup.
  rewrite (removeAll_absent "`" "``xml") by exact (includes_app "```" "xml" _ E).
  rewrite (removeAll_absent "`" "``svg") by exact (includes_app "```" "svg" _ E).
  now apply (removeAll_absent "`" "``").
Qed.

End GeminiFacts.

(** ** More on the flood fill *)

Module FloodFillMore.

Import FloodFill JSFacts FloodFillFacts.

(** *** The colour string *)

Lemma hexDigit_range (c : ascii) (d : Z) : JS.hexDigit c = Some d -> 0 <= d <= 15.
Proof.
  destruct c as [[] [] [] [] [] [] [] []]; intros E; vm_compute in E;
    try discriminate E; injection E as <-; lia.
Qed.

Lemma hexDigit_plain (c : ascii) (d : Z) :
  JS.hexDigit c = Some d ->
  JS.isWhiteSpace c = false /\ Ascii.eqb c "#" = false
  /\ c <> "-"%char /\ c <> "+"%char /\ c <> "x"%char /\ c <> "X"%char.
Proof.
  destruct c as [[] [] [] [] [] [] [] []]; intros E; vm_compute in E;
    try discriminate E; repeat split; discriminate.
Qed.

Lemma sign_none (c : ascii) (t : string) :
  c <> "-"%char -> c <> "+"%char ->
  match String c t with
  | String "-" t' => (-1, t')
  | String "+" t' => (1, t')
  | _ => (1, String c t)
  end = (1, String c t).
Proof.
  intros Hm Hp. destruct c as [[] [] [] [] [] [] [] []];
    try reflexivity; contradiction.
Qed.

Lemma prefix_none (c1 c2 : ascii) (t : string) :
  c2 <> "x"%char -> c2 <> "X"%char ->
  match String c1 (String c2 t) with
  | String "0" (String "x" t') => t'
  | String "0" (String "X" t') => t'
  | _ => String c1 (String c2 t)
  end = String c1 (String c2 t).
Proof.
  intros Hx HX. destruct c1 as [[] [] [] [] [] [] [] []]; try reflexivity.
  destruct c2 as [[] [] [] [] [] [] [] []]; try reflexivity; contradiction.
Qed.

(** [parseInt] of two hexadecimal digits. *)
Lemma parseInt16_two (c1 c2 : ascii) (d1 d2 : Z) :
  JS.hexDigit c1 = Some d1 -> JS.hexDigit c2 = Some d2 ->
  JS.parseInt16 (String c1 (String c2 EmptyString)) = Some (16 * d1 + d2).
Proof.
  intros E1 E2.
  destruct (hexDigit_plain _ _ E1) as (Hw & _ & Hm & Hp & _ & _).
  destruct (hexDigit_plain _ _ E2) as (_ & _ & _ & _ & Hx & HX).
  unfold JS.parseInt16. cbn [JS.trimStart]. rewrite Hw.
  rewrite (sign_none _ _ Hm Hp), (prefix_none _ _ _ Hx HX).
  cbn [JS.hexPrefix]. rewrite E1, E2. cbn [default option_map]. unfold id.
  f_equal. lia.
Qed.

(** X1.  A colour string made of an optional [#] and six hexadecimal digits
    (whatever follows them) is read as the three bytes that the pairs of
    digits denote. *)
Theorem parseFill_rrggbb (c1 c2 c3 c4 c5 c6 : ascii) (d1 d2 d3 d4 d5 d6 : Z)
    (rest : string) :
  JS.hexDigit c1 = Some d1 -> JS.hexDigit c2 = Some d2 ->
  JS.hexDigit c3 = Some d3 -> JS.hexDigit c4 = Some d4 ->
  JS.hexDigit c5 = Some d5 -> JS.hexDigit c6 = Some d6 ->
  let digits :=
    String c1 (String c2 (String c3 (String c4 (String c5 (String c6 rest))))) in
  parseFill (String "#" digits)
  = (Some (16 * d1 + d2), Some (16 * d3 + d4), Some (16 * d5 + d6))
  /\ parseFill digits
     = (Some (16 * d1 + d2), Some (16 * d3 + d4), Some (16 * d5 + d6))
  /\ isByte (16 * d1 + d2) /\ isByte (16 * d3 + d4) /\ isByte (16 * d5 + d6).
Proof.
  intros E1 E2 E3 E4 E5 E6 digits.
  assert (forall t,
            t = String c1 (String c2 (String c3 (String c4 (String c5 (String c6
                  (JS.replaceHash rest)))))) \/ t = digits ->
            (JS.parseInt16 (JS.substring 0 2 t), JS.parseInt16 (JS.substring 2 4 t),
             JS.parseInt16 (JS.substring 4 6 t))
            = (Some (16 * d1 + d2), Some (16 * d3 + d4), Some (16 * d5 + d6)))
    as Hsub.
  { assert (forall u, String.substring 0 0 u = EmptyString) as H00
      by (intros [|? ?]; reflexivity).
    intros t [-> | ->]; unfold digits, JS.substring;
      cbn [String.substring Nat.sub]; rewrite H00;
      now rewrite (parseInt16_two _ _ _ _ E1 E2), (parseInt16_two _ _ _ _ E3 E4),
        (parseInt16_two _ _ _ _ E5 E6). }
  split; [|split].
  - unfold parseFill. change (JS.replaceHash (String "#" digits)) with digits.
    apply Hsub. auto.
  - unfold parseFill, digits. cbn [JS.replaceHash].
    rewrite (proj1 (proj2 (hexDigit_plain _ _ E1))),
      (proj1 (proj2 (hexDigit_plain _ _ E2))),
      (proj1 (proj2 (hexDigit_plain _ _ E3))),
      (proj1 (proj2 (hexDigit_plain _ _ E4))),
      (proj1 (proj2 (hexDigit_plain _ _ E5))),
      (proj1 (proj2 (hexDigit_plain _ _ E6))).
    apply Hsub. auto.
  - pose proof (hexDigit_range _ _ E1). pose proof (hexDigit_range _ _ E2).
    pose proof (hexDigit_range _ _ E3). pose proof (hexDigit_range _ _ E4).
    pose proof (hexDigit_range _ _ E5). pose proof (hexDigit_range _ _ E6).
    unfold isByte. lia.
Qed.

Lemma parseFill_rrggbb_witness :
  parseFill "#3b82f6" = (Some 59, Some 130, Some 246)
  /\ parseFill "3b82f6" = (Some 59, Some 130, Some 246)
  /\ isByte 59 /\ isByte 130 /\ isByte 246.
Proof.
  exact (parseFill_rrggbb "3" "b" "8" "2" "f" "6" 3 11 8 2 15 6 EmptyString
           eq_refl eq_refl eq_refl eq_refl eq_refl eq_refl).
Defined.

(** *** Calls that follow one another *)

Lemma empty_stack_loop W H sR sG sB sA r g b a push (fuel : nat) (st : LoopState) :
  stack st = [] ->
  runLoop W H sR sG sB sA r g b a push fuel st = Some (st, []).
Proof. intros E. destruct fuel; simpl; now rewrite E. Qed.

(** A seed outside the grid: the buffer is returned as it is. *)
Lemma outside_call (data : list Z) (W H sx sy : Z) (hex : string) :
  ~ inBounds W H sx sy -> floodFill data sx sy hex W H = Some data.
Proof.
  intros Hout. destruct (parseFill hex) as [[r g] b] eqn:Hparse.
  unfold floodFill, floodFillWith.
  rewrite (floodFillRun_unfold _ _ _ _ _ _ _ _ _ _ _ Hparse).
  destruct (sameColor _ _ _ _ _); [reflexivity|].
  unfold enoughFuel. cbn [runLoop FloodFill.stack FloodFill.data FloodFill.seen].
  match goal with
  | |- context [loopBody ?W ?H ?sR ?sG ?sB ?sA ?r ?g ?b ?a ?push ?x ?y (mkLoop ?d ?s ?k)] =>
      destruct (loopBody_cases W H sR sG sB sA r g b a push x y d s k)
        as [(_ & ->)|[(Hin & _)|[(Hin & _)|(Hin & _)]]]; try contradiction
  end.
  rewrite empty_stack_loop by reflexivity. reflexivity.
Qed.

(** A seed pixel that has the fill colour: the buffer is returned as it is. *)
Lemma same_colour_call (data : list Z) (W H sx sy : Z) (hex : string) (r g b : Z) :
  parseFill hex = (Some r, Some g, Some b) ->
  pixelAt data (sy * W + sx) = Some (r, g, b, 255) ->
  floodFill data sx sy hex W H = Some data.
Proof.
  intros Hparse Hpix. unfold floodFill, floodFillWith.
  rewrite (floodFillRun_unfold _ _ _ _ _ _ _ _ _ _ _ Hparse).
  replace (sameColor _ _ _ _ _) with true; [reflexivity|].
  symmetry. apply sameColor_true. exists r, g, b. auto.
Qed.

Lemma inBounds_dec (W H x y : Z) : inBounds W H x y \/ ~ inBounds W H x y.
Proof. unfold inBounds. lia. Qed.

Lemma fillPixel_bytes (r g b : Z) :
  isByte r -> isByte g -> isByte b ->
  fillPixel (Some r) (Some g) (Some b) (Some 255) = (r, g, b, 255).
Proof.
  intros Hr Hg Hb. unfold fillPixel.
  rewrite !clamp_byte by (unfold isByte in *; lia). reflexivity.
Qed.

(** What a call gives: the buffer itself when the seed pixel has the fill
    colour, and otherwise the data of a final state of the loop, which
    satisfies the invariant. *)
Lemma call_result (data : list Z) (W H sx sy : Z) (hex : string) (r g b : JS.Num) :
  Z.of_nat (length data) = W * H * 4 ->
  parseFill hex = (r, g, b) ->
  (sameColor data ((sy * W + sx) * 4) r g b = true
   /\ floodFillRun pushNeighbors (enoughFuel W H) data sx sy hex W H = SameColor
   /\ floodFill data sx sy hex W H = Some data)
  \/ (sameColor data ((sy * W + sx) * 4) r g b = false
      /\ exists st log,
          floodFillRun pushNeighbors (enoughFuel W H) data sx sy hex W H
          = Looped st log
          /\ floodFill data sx sy hex W H = Some (FloodFill.data st)
          /\ stack st = []
          /\ Inv W H (JS.get data ((sy * W + sx) * 4))
                 (JS.get data ((sy * W + sx) * 4 + 1))
                 (JS.get data ((sy * W + sx) * 4 + 2))
                 (JS.get data ((sy * W + sx) * 4 + 3))
                 r g b (Some 255) data sx sy st).
Proof.
  intros Hlen Hparse.
  destruct (floodFillRun_cases pushNeighbors (enoughFuel W H) data sx sy hex W H
              _ _ _ pushNeighbors_ok (Nat.le_refl _) Hparse)
    as [(Hs & E)|(Hs & st & log & E & Eloop)].
  - left. repeat split; try assumption.
    unfold floodFill, floodFillWith. now rewrite E.
  - right. split; [assumption|]. exists st, log.
    destruct (call_loop_Inv _ _ data sx sy W H _ _ _ pushNeighbors_ok Hlen st log Eloop)
      as (HI & He).
    split; [assumption|]. split; [|split; assumption].
    unfold floodFill, floodFillWith. now rewrite E.
Qed.

(** X2.  On a buffer of [W * H] pixels and with a colour [#rrggbb], a second
    call of [floodFill] with the same seed and colour changes nothing: the
    seed pixel already has the fill colour and the function returns at the
    colour test. *)
Theorem floodFill_twice (data res : list Z) (W H sx sy : Z) (hex : string)
    (r g b : Z) :
  Z.of_nat (length data) = W * H * 4 ->
  parseFill hex = (Some r, Some g, Some b) ->
  isByte r -> isByte g -> isByte b ->
  floodFill data sx sy hex W H = Some res ->
  floodFill res sx sy hex W H = Some res.
Proof.
  intros Hlen Hparse Hr Hg Hb E1.
  destruct (inBounds_dec W H sx sy) as [Hin|Hout].
  2:{ rewrite outside_call in E1 by assumption. injection E1 as <-.
      now apply outside_call. }
  destruct (call_result data W H sx sy hex _ _ _ Hlen Hparse)
    as [(_ & _ & E)|(_ & st & log & _ & E & He & HI)];
    rewrite E in E1; injection E1 as <-; [assumption|].
  destruct (Inv_final_pixel _ _ _ _ _ _ _ _ _ _ _ _ _ st sx sy HI He Hin)
    as [(_ & _ & Hpix)|(Hreg & _)].
  2:{ exfalso. apply Hreg. now constructor. }
  rewrite fillPixel_bytes in Hpix by assumption.
  unfold floodFill, floodFillWith.
  rewrite (floodFillRun_unfold _ _ _ _ _ _ _ _ _ _ _ Hparse).
  replace (sameColor _ _ _ _ _) with true; [reflexivity|].
  symmetry. apply sameColor_true. exists r, g, b. auto.
Qed.

Lemma floodFill_twice_witness :
  floodFill [239; 68; 68; 255;  0; 0; 0; 255;
             239; 68; 68; 255;  239; 68; 68; 255] 0 0 "#ef4444" 2 2
  = Some [239; 68; 68; 255;  0; 0; 0; 255;
          239; 68; 68; 255;  239; 68; 68; 255].
Proof.
  apply (floodFill_twice sample _ 2 2 0 0 "#ef4444" 239 68 68).
  - reflexivity.
  - reflexivity.
  - unfold isByte. lia.
  - unfold isByte. lia.
  - unfold isByte. lia.
  - vm_compute. reflexivity.
Defined.

Lemma Region_ok_or_seed' (W H sx sy : Z) (ok : Z -> Z -> Prop) (x y : Z) :
  Region W H sx sy ok x y -> (x = sx /\ y = sy) \/ ok x y.
Proof. intros Hreg. destruct Hreg; auto. Qed.

Lemma Region_within (W H sx sy : Z) (ok1 ok2 : Z -> Z -> Prop) (x y : Z) :
  (forall x y, Region W H sx sy ok1 x y -> ok2 x y) ->
  Region W H sx sy ok1 x y -> Region W H sx sy ok2 x y.
Proof.
  intros Himp Hreg. induction Hreg as [Hin | x y x' y' Hreg IH Hadj Hin' Hok].
  - now constructor.
  - apply (region_step _ _ _ _ _ x y); auto.
    apply Himp. apply (region_step _ _ _ _ _ x y); auto.
Qed.

(** X3.  Filling from a seed with a first colour and then from the same seed
    with a different colour leaves every pixel of the seed's region (as it
    was before the two calls) in the second colour. *)
Theorem floodFill_recolour (data : list Z) (W H sx sy : Z) (hex1 hex2 : string)
    (r1 g1 b1 r2 g2 b2 : Z) (ref : Z * Z * Z * Z) :
  Z.of_nat (length data) = W * H * 4 ->
  inBounds W H sx sy ->
  parseFill hex1 = (Some r1, Some g1, Some b1) ->
  isByte r1 -> isByte g1 -> isByte b1 ->
  parseFill hex2 = (Some r2, Some g2, Some b2) ->
  isByte r2 -> isByte g2 -> isByte b2 ->
  (r1, g1, b1) <> (r2, g2, b2) ->
  pixelAt data (sy * W + sx) = Some ref ->
  exists res1 res2,
    floodFill data sx sy hex1 W H = Some res1
    /\ floodFill res1 sx sy hex2 W H = Some res2
    /\ forall x y,
        Region W H sx sy (similar data ref W) x y ->
        pixelAt res2 (y * W + x) = Some (r2, g2, b2, 255).
Proof.
  intros Hlen Hseed Hp1 Hr1 Hg1 Hb1 Hp2 Hr2 Hg2 Hb2 Hne Href.
  (* the first call *)
  assert (exists res1,
            floodFill data sx sy hex1 W H = Some res1
            /\ length res1 = length data
            /\ pixelAt res1 (sy * W + sx) = Some (r1, g1, b1, 255)
            /\ forall x y, Region W H sx sy (similar data ref W) x y ->
                 similar res1 (r1, g1, b1, 255) W x y)
    as (res1 & E1 & Hlen1 & Hseed1 & Hsim).
  { destruct (call_result data W H sx sy hex1 _ _ _ Hlen Hp1)
      as [(Hs & _ & E)|(_ & st & log & _ & E & He & HI)].
    - apply sameColor_true in Hs as (r' & g' & b' & Er & Eg & Eb & Hpix).
      injection Er as <-. injection Eg as <-. injection Eb as <-.
      exists data. repeat split; try assumption.
      intros x y Hreg. rewrite Hpix in Href. injection Href as <-.
      apply Region_ok_or_seed' in Hreg as [[-> ->]|Hs]; [|assumption].
      exists (r1, g1, b1, 255). split; [assumption|].
      rewrite sqDist_self. lia.
    - exists (FloodFill.data st). split; [assumption|].
      split; [apply (inv_data_length _ HI)|].
      assert (forall x y, Region W H sx sy (similar data ref W) x y ->
                pixelAt (FloodFill.data st) (y * W + x) = Some (r1, g1, b1, 255))
        as Hpainted.
      { intros x y Hreg.
        destruct (Inv_final_pixel _ _ _ _ _ _ _ _ _ _ _ _ _ st x y HI He
                    (Region_inBounds _ _ _ _ _ _ _ Hreg))
          as [(_ & _ & Hpix)|(Hn & _)].
        - now rewrite Hpix, fillPixel_bytes.
        - exfalso. apply Hn. revert Hreg. apply Region_impl.
          intros x' y' _. now apply okOrig_similar. }
      split; [apply Hpainted; now constructor|].
      intros x y Hreg. exists (r1, g1, b1, 255).
      split; [now apply Hpainted|]. rewrite sqDist_self. lia. }
  (* the second call *)
  assert (Z.of_nat (length res1) = W * H * 4) as Hlen1' by lia.
  destruct (call_result res1 W H sx sy hex2 _ _ _ Hlen1' Hp2)
    as [(Hs & _)|(_ & st & log & _ & E2 & He & HI)].
  { apply sameColor_true in Hs as (r' & g' & b' & Er & Eg & Eb & Hpix).
    injection Er as <-. injection Eg as <-. injection Eb as <-.
    congruence. }
  exists res1, (FloodFill.data st). split; [assumption|]. split; [assumption|].
  intros x y Hreg.
  destruct (Inv_final_pixel _ _ _ _ _ _ _ _ _ _ _ _ _ st x y HI He
              (Region_inBounds _ _ _ _ _ _ _ Hreg))
    as [(_ & _ & Hpix)|(Hn & _)].
  - now rewrite Hpix, fillPixel_bytes.
  - exfalso. apply Hn.
    apply (Region_within _ _ _ _ (similar data ref W)); [|assumption].
    intros x' y' Hreg'. apply (okOrig_similar W res1 _ _ x' y' Hseed1).
    now apply Hsim.
Qed.

Lemma floodFill_recolour_witness :
  exists res1 res2,
    floodFill sample 0 0 "#ef4444" 2 2 = Some res1
    /\ floodFill res1 0 0 "#3b82f6" 2 2 = Some res2
    /\ forall x y,
        Region 2 2 0 0 (similar sample (255, 255, 255, 255) 2) x y ->
        pixelAt res2 (y * 2 + x) = Some (59, 130, 246, 255).
Proof.
  apply (floodFill_recolour sample 2 2 0 0 "#ef4444" "#3b82f6"
           239 68 68 59 130 246 (255, 255, 255, 255)).
  - reflexivity.
  - unfold inBounds. lia.
  - reflexivity.
  - unfold isByte. lia.
  - unfold isByte. lia.
  - unfold isByte. lia.
  - reflexivity.
  - unfold isByte. lia.
  - unfold isByte. lia.
  - unfold isByte. lia.
  - discriminate.
  - reflexivity.
Defined.

(** *** The tolerance *)

(** X4.  As the comment on the threshold says, a fill that starts from
    opaque white goes into the lighter grays and not into black: an opaque
    gray [(v, v, v, 255)] matches the white reference exactly when
    [v >= 192]. *)
Theorem white_reaches_gray_from_192 (data : list Z) (i v : Z) :
  isByte v ->
  pixelAt data i = Some (v, v, v, 255) ->
  (matchColor (Some 255) (Some 255) (Some 255) (Some 255) data (i * 4) = true
   <-> 192 <= v)
  /\ (v = 0 ->
      matchColor (Some 255) (Some 255) (Some 255) (Some 255) data (i * 4) = false).
Proof.
  intros Hv Hpix. rewrite matchColor_pixelAt, Hpix.
  unfold refPixel, sqDist, isByte in *. split.
  - rewrite Z.ltb_lt. split; intros Hlt; nia.
  - intros ->. reflexivity.
Qed.

Lemma white_reaches_gray_from_192_witness :
  (matchColor (Some 255) (Some 255) (Some 255) (Some 255)
              [192; 192; 192; 255;  191; 191; 191; 255] (0 * 4) = true
   <-> 192 <= 192)
  /\ (matchColor (Some 255) (Some 255) (Some 255) (Some 255)
                 [192; 192; 192; 255;  191; 191; 191; 255] (1 * 4) = true
      <-> 192 <= 191).
Proof.
  split.
  - apply (white_reaches_gray_from_192
             [192; 192; 192; 255;  191; 191; 191; 255] 0 192);
      [unfold isByte; lia | reflexivity].
  - apply (white_reaches_gray_from_192
             [192; 192; 192; 255;  191; 191; 191; 255] 1 191);
      [unfold isByte; lia | reflexivity].
Defined.

(** *** Colour strings that do not parse *)

(** X5.  The colour string is not validated.  When one of its channels does
    not parse ([parseInt] gives [NaN]), the seed pixel is never taken to have
    the fill colour, so the loop runs; on a buffer of [W * H] pixels and for
    a seed in the grid, the seed pixel is painted, with 0 in the channels
    that did not parse. *)
Theorem floodFill_unparsed_channel (data : list Z) (W H sx sy : Z) (hex : string)
    (r g b : JS.Num) :
  Z.of_nat (length data) = W * H * 4 ->
  inBounds W H sx sy ->
  parseFill hex = (r, g, b) ->
  r = None \/ g = None \/ b = None ->
  floodFillRun pushNeighbors (enoughFuel W H) data sx sy hex W H <> SameColor
  /\ exists res,
      floodFill data sx sy hex W H = Some res
      /\ pixelAt res (sy * W + sx)
         = Some (JS.toUint8Clamp r, JS.toUint8Clamp g, JS.toUint8Clamp b, 255)
      /\ JS.toUint8Clamp None = 0.
Proof.
  intros Hlen Hin Hparse Hnan.
  destruct (call_result data W H sx sy hex _ _ _ Hlen Hparse)
    as [(Hs & _)|(_ & st & log & Erun & E & He & HI)].
  { apply sameColor_true in Hs as (r' & g' & b' & -> & -> & -> & _).
    destruct Hnan as [?|[?|?]]; discriminate. }
  split; [rewrite Erun; discriminate|].
  exists (FloodFill.data st). split; [assumption|].
  destruct (Inv_final_pixel _ _ _ _ _ _ _ _ _ _ _ _ _ st sx sy HI He Hin)
    as [(_ & _ & Hpix)|(Hreg & _)].
  - rewrite Hpix. split; reflexivity.
  - exfalso. apply Hreg. now constructor.
Qed.

Lemma floodFill_unparsed_channel_witness :
  floodFillRun pushNeighbors (enoughFuel 2 2) sample 0 0 "#fff" 2 2 <> SameColor
  /\ exists res,
      floodFill sample 0 0 "#fff" 2 2 = Some res
      /\ pixelAt res (0 * 2 + 0) = Some (255, 15, 0, 255)
      /\ JS.toUint8Clamp None = 0.
Proof.
  apply (floodFill_unparsed_channel sample 2 2 0 0 "#fff"
           (Some 255) (Some 15) None).
  - reflexivity.
  - unfold inBounds. lia.
  - reflexivity.
  - right. right. reflexivity.
Defined.

End FloodFillMore.

(** ** More on the canvas: gestures, history and undo *)

Module CanvasMore.

Import Canvas Gesture CanvasFacts.

Lemma last_pushSnapshot (prev : list (list Z)) (cur : list Z) :
  last (pushSnapshot prev cur) = Some cur.
Proof.
  rewrite pushSnapshot_cases. destruct (Nat.ltb_spec (length prev) 20).
  - apply last_snoc.
  - destruct prev as [|x prev']; simpl in *; [lia|]. apply last_snoc.
Qed.

Lemma last_tail (A : Type) (l : list A) :
  (2 <= length l)%nat -> last (tail l) = last l.
Proof. destruct l as [|x [|y l]]; simpl; intros; try lia; reflexivity. Qed.

Lemma last_cons_default (A : Type) (l : list A) (x d : A) :
  List.last (x :: l) d = List.last l x.
Proof.
  revert x d. induction l as [|y l IH]; intros x d; [reflexivity|].
  change (List.last (x :: y :: l) d) with (List.last (y :: l) d).
  now rewrite (IH y d), (IH y x).
Qed.

(** The undo effect after one push on a history that ended with [p0]. *)
Lemma undo_after_push (t : Z) (st1 : State) (h : list (list Z)) (p0 : list Z) :
  history st1 = pushSnapshot h (pixels st1) ->
  last h = Some p0 ->
  t <> 0 -> t <> prevTriggerUndo st1 ->
  pixels (undoEffect t st1) = p0
  /\ history (undoEffect t st1) = (if (length h <? 20)%nat then h else tail h).
Proof.
  intros Hh Hlast H0 Hp.
  assert (h <> []) as Hne by (intros ->; discriminate).
  assert (1 <= length h)%nat as Hl1 by (destruct h; simpl; [congruence | lia]).
  assert (removelast (history st1) = (if (length h <? 20)%nat then h else tail h)
          /\ (2 <= length (history st1))%nat) as [Hrm Hl2].
  { rewrite Hh, pushSnapshot_cases. destruct (Nat.ltb_spec (length h) 20).
    - rewrite removelast_last, length_app. simpl. split; [reflexivity | lia].
    - destruct h as [|x h']; [contradiction|]. simpl.
      rewrite removelast_last, length_app. simpl in *. split; [reflexivity | lia]. }
  destruct (proj2 (undoEffect_fresh t st1 H0 Hp) Hl2) as (prev & Elast & ->).
  cbn [pixels history setHistory putImageData setPixels setPrevTriggerUndo].
  split; [|exact Hrm].
  rewrite Hrm in Elast. destruct (Nat.ltb_spec (length h) 20).
  - congruence.
  - rewrite last_tail in Elast by lia. congruence.
Qed.

Section Component.

Context {browser : Renderer}.

(** The moves of a stroke in progress. *)
Lemma moves_run (tool : ToolType) (color : string) (brushSize : Z)
    (moves : list Point) (from : Point) (st : State) :
  tool <> BUCKET -> isDrawing st = true -> lastPos st = Some from ->
  run st (map (PointerMove tool color brushSize) moves)
  = mkState (width st) (height st)
            (strokeAll (moveSegments tool color brushSize from moves)
                       (width st) (height st) (pixels st))
            true (Some (List.last moves from)) (history st) (prevTriggerUndo st).
Proof.
  intros Htool. revert from st.
  induction moves as [|p ps IH]; intros from st Hd Hl.
  - destruct st; simpl in *. now subst.
  - unfold run in *. cbn [map fold_left step].
    assert (handleMove tool color brushSize p st
            = mkState (width st) (height st)
                (stroke (drawSettings tool color brushSize from p)
                        (width st) (height st) (pixels st))
                true (Some p) (history st) (prevTriggerUndo st)) as ->.
    { unfold handleMove. rewrite Hd, Hl.
      destruct tool; try contradiction;
        unfold draw, setDrawing, setPixels;
        cbn [isBucket isDrawing width height pixels lastPos history prevTriggerUndo];
        rewrite Hd; reflexivity. }
    rewrite (IH p) by reflexivity.
    cbn [width height pixels history prevTriggerUndo moveSegments strokeAll fold_left].
    f_equal. f_equal. symmetry. apply last_cons_default.
Qed.

(** X6.  A stroke (button down at [p0], moves, button up) with a drawing
    tool draws a dot at [p0] and then one segment from each position to the
    next; the moves leave the history alone, and the release pushes one
    snapshot, of the canvas as the stroke left it. *)
Theorem stroke_draws_chain_and_commits_once (tool : ToolType) (color : string)
    (brushSize : Z) (p0 : Point) (moves : list Point) (st : State) :
  tool <> BUCKET ->
  let painted :=
    strokeAll (strokeSegments tool color brushSize p0 moves)
              (width st) (height st) (pixels st) in
  run st (gestureEvents (Stroke tool color brushSize p0 moves))
  = mkState (width st) (height st) painted false None
            (pushSnapshot (history st) painted) (prevTriggerUndo st).
Proof.
  intros Htool painted. unfold gestureEvents, run.
  cbn [fold_left step]. rewrite fold_left_app.
  assert (startDrawing true tool color brushSize p0 st
          = mkState (width st) (height st)
              (stroke (drawSettings tool color brushSize p0 p0)
                      (width st) (height st) (pixels st))
              true (Some p0) (history st) (prevTriggerUndo st)) as ->.
  { unfold startDrawing. destruct tool; try contradiction; reflexivity. }
  pose proof (moves_run tool color brushSize moves p0) as Hm. unfold run in Hm.
  rewrite Hm by (assumption || reflexivity).
  reflexivity.
Qed.

Lemma step_size (st : State) (e : Event) :
  width (step st e) = width st /\ height (step st e) = height st
  /\ ((forall t, e <> UndoTrigger t) ->
      prevTriggerUndo (step st e) = prevTriggerUndo st).
Proof.
  destruct e as [primary tool color bs pos | tool color bs pos | | t | t | img | img];
    cbn [step].
  - unfold startDrawing. destruct primary; cbn [negb]; [|auto].
    destruct (isBucket tool); [|auto].
    destruct (FloodFill.floodFill _ _ _ _ _ _); auto.
  - unfold handleMove. destruct (isDrawing st); [|auto].
    destruct (lastPos st); [|auto]. destruct (isBucket tool); auto.
  - unfold stopDrawing. destruct (isDrawing st); auto.
  - unfold clearEffect. destruct (t =? 0); auto.
  - assert ((forall t', UndoTrigger t <> UndoTrigger t') ->
            prevTriggerUndo (undoEffect t st) = prevTriggerUndo st) as Hno.
    { intros Hne. exfalso. now apply (Hne t). }
    unfold undoEffect in *.
    destruct ((t =? 0) || (t =? prevTriggerUndo st)); [auto|].
    cbn [history setPrevTriggerUndo] in *.
    destruct (1 <? length (history st))%nat; [|auto].
    destruct (last (removelast (history st))); auto.
  - auto.
  - auto.
Qed.

(** What a gesture does to the history and to the recorded trigger. *)
Lemma gesture_push (g : Gesture) (st : State) :
  wellFormed g ->
  history (run st (gestureEvents g))
  = pushSnapshot (history st) (pixels (run st (gestureEvents g)))
  /\ prevTriggerUndo (run st (gestureEvents g)) = prevTriggerUndo st.
Proof.
  intros Hwf. destruct g as [tool color bs p0 moves | color bs pos | tc | img];
    cbn [wellFormed] in Hwf; unfold gestureEvents, run.
  - cbn [fold_left step]. rewrite fold_left_app.
    assert (startDrawing true tool color bs p0 st
            = mkState (width st) (height st)
                (stroke (drawSettings tool color bs p0 p0)
                        (width st) (height st) (pixels st))
                true (Some p0) (history st) (prevTriggerUndo st)) as ->.
    { unfold startDrawing. destruct tool; try contradiction; reflexivity. }
    pose proof (moves_run tool color bs moves p0) as Hm. unfold run in Hm.
    rewrite Hm by (assumption || reflexivity).
    split; reflexivity.
  - cbn [fold_left step]. unfold startDrawing. cbn [negb isBucket].
    destruct (FloodFill.floodFill _ _ _ _ _ _); split; reflexivity.
  - cbn [fold_left step]. unfold clearEffect.
    destruct (Z.eqb_spec tc 0); [contradiction|]. split; reflexivity.
  - split; reflexivity.
Qed.

(** X7.  Each gesture (a stroke with a drawing tool, a click with the bucket,
    a "clear", an imported image) pushes exactly one snapshot, that of the
    canvas as the gesture left it; it changes neither the size of the canvas
    nor the record of the undo trigger. *)
Theorem gesture_commits_once (g : Gesture) (st : State) :
  wellFormed g ->
  let st' := run st (gestureEvents g) in
  history st' = pushSnapshot (history st) (pixels st')
  /\ width st' = width st /\ height st' = height st
  /\ prevTriggerUndo st' = prevTriggerUndo st.
Proof.
  intros Hwf. cbn zeta.
  destruct (gesture_push g st Hwf) as [Hh Hp].
  split; [exact Hh|].
  assert (width (run st (gestureEvents g)) = width st
          /\ height (run st (gestureEvents g)) = height st) as [Hw Hhe].
  { apply (run_invariant (fun s => width s = width st /\ height s = height st));
      [|auto].
    intros s e [Ew Eh]. destruct (step_size s e) as (Ew' & Eh' & _).
    split; congruence. }
  auto.
Qed.

Lemma step_settled (st : State) (e : Event) : settled st -> settled (step st e).
Proof.
  unfold settled. intros Hst.
  assert (forall s, last (history (saveHistory s)) = Some (pixels (saveHistory s)))
    as Hsave by (intros s; apply last_pushSnapshot).
  destruct e as [primary tool color bs pos | tool color bs pos | | t | t | img | img];
    cbn [step].
  - unfold startDrawing. destruct primary; cbn [negb]; [|assumption].
    destruct (isBucket tool); [|discriminate].
    intros _. right. apply Hsave.
  - unfold handleMove. destruct (isDrawing st) eqn:Ed; [|now rewrite Ed].
    destruct (lastPos st); [|now rewrite Ed].
    destruct (isBucket tool); [now rewrite Ed|].
    cbn [isDrawing setDrawing draw setPixels]. rewrite Ed. discriminate.
  - unfold stopDrawing. destruct (isDrawing st) eqn:Ed; [|now rewrite Ed].
    intros _. right. apply Hsave.
  - unfold clearEffect. destruct (t =? 0); [assumption|].
    intros _. right. apply Hsave.
  - unfold undoEffect.
    destruct ((t =? 0) || (t =? prevTriggerUndo st)); [assumption|].
    cbn [history setPrevTriggerUndo].
    destruct (1 <? length (history st))%nat; [|exact Hst].
    destruct (last (removelast (history st))) as [prev|] eqn:El; [|exact Hst].
    intros _. right. exact El.
  - intros _. right. apply Hsave.
  - intros _. right. reflexivity.
Qed.

(** X8.  From the creation of the canvas on, whatever happens: the size of
    the canvas stays the one it was created with, and whenever no stroke is
    in progress the history is empty or its last entry is the canvas as it
    is. *)
Theorem settled_always (w h t : Z) (savedCanvas : bool) (events : list Event) :
  let st := run (mount w h t savedCanvas) events in
  settled st /\ width st = w /\ height st = h.
Proof.
  cbn zeta.
  apply (run_invariant (fun s => settled s /\ width s = w /\ height s = h)).
  - intros st e (Hs & Hw & Hh).
    destruct (step_size st e) as (Ew & Eh & _).
    split; [now apply step_settled|]. split; congruence.
  - unfold mount, settled. destruct savedCanvas; cbn; auto.
Qed.

(** X9.  When the history ends with the canvas as it is, "undo" after a
    gesture puts back the canvas of before the gesture, and the history is
    the one of before the gesture, less its oldest entry when it was full. *)
Theorem undo_reverts_gesture (g : Gesture) (st : State) (t : Z) :
  wellFormed g ->
  last (history st) = Some (pixels st) ->
  t <> 0 -> t <> prevTriggerUndo st ->
  let st' := undoEffect t (run st (gestureEvents g)) in
  pixels st' = pixels st
  /\ history st'
     = (if (length (history st) <? 20)%nat then history st else tail (history st)).
Proof.
  intros Hwf Hlast H0 Hp. cbn zeta.
  destruct (gesture_push g st Hwf) as [Hh Hprev].
  apply (undo_after_push t _ (history st) (pixels st)); congruence.
Qed.

Lemma stray_run (st : State) (events : list Event) :
  isDrawing st = false -> Forall strayEvent events -> run st events = st.
Proof.
  intros Hd Hall. unfold run. induction Hall as [|e es He _ IH]; [reflexivity|].
  cbn [fold_left].
  assert (step st e = st) as ->; [|exact IH].
  destruct e as [[] tool color bs pos | tool color bs pos | | t | t | img | img];
    cbn [strayEvent] in He; try contradiction; cbn [step].
  - reflexivity.
  - unfold handleMove. now rewrite Hd.
  - unfold stopDrawing. now rewrite Hd.
Qed.

(** X10.  While no stroke is in progress, and in particular after a release,
    moves of the pointer, further releases (also the pointer leaving the
    canvas) and presses of another button than the main one change nothing:
    no drawing, no snapshot. *)
Theorem stray_pointer_events_ignored (st : State) (events : list Event) :
  Forall strayEvent events ->
  (isDrawing st = false -> run st events = st)
  /\ run (stopDrawing st) events = stopDrawing st.
Proof.
  intros Hall. split.
  - intros Hd. now apply stray_run.
  - apply stray_run; [|assumption].
    unfold stopDrawing. destruct (isDrawing st) eqn:Ed; [reflexivity | exact Ed].
Qed.

(** X11.  A click with the bucket outside the grid, or on a pixel that has
    the fill colour, leaves the canvas as it is and pushes a snapshot all the
    same: the history grows by an entry equal to the canvas (or loses its
    oldest entry when it is full). *)
Theorem idle_bucket_click_commits (color : string) (brushSize : Z) (pos : Point)
    (st : State) (r g b : Z) :
  let x := Qfloor (px pos) in
  let y := Qfloor (py pos) in
  ~ FloodFill.inBounds (width st) (height st) x y
  \/ (FloodFill.parseFill color = (Some r, Some g, Some b)
      /\ FloodFill.pixelAt (pixels st) (y * width st + x) = Some (r, g, b, 255)) ->
  let st' := startDrawing true BUCKET color brushSize pos st in
  pixels st' = pixels st
  /\ history st' = pushSnapshot (history st) (pixels st)
  /\ length (history st')
     = (if (length (history st) <? 20)%nat
        then S (length (history st)) else length (history st)).
Proof.
  intros x y Hidle st'.
  assert (FloodFill.floodFill (pixels st) x y color (width st) (height st)
          = Some (pixels st)) as E.
  { destruct Hidle as [Hout|[Hparse Hpix]].
    - now apply FloodFillMore.outside_call.
    - now apply (FloodFillMore.same_colour_call _ _ _ _ _ _ r g b). }
  assert (st' = saveHistory st) as ->.
  { unfold st', startDrawing. cbn [negb isBucket]. unfold getImageData.
    fold x y. rewrite E. destruct st; reflexivity. }
  split; [reflexivity|]. split; [reflexivity|]. apply pushSnapshot_length.
Qed.

Lemma gestures_push (gs : list Gesture) (st : State) :
  Forall wellFormed gs ->
  (length (history st) + length gs <= 20)%nat ->
  exists snaps,
    history (run st (concat (map gestureEvents gs))) = history st ++ snaps
    /\ length snaps = length gs
    /\ prevTriggerUndo (run st (concat (map gestureEvents gs))) = prevTriggerUndo st.
Proof.
  intros Hall. revert st. induction Hall as [|g gs Hg _ IH]; intros st Hlen.
  - exists []. cbn. now rewrite app_nil_r.
  - cbn [map concat]. unfold run in *. rewrite fold_left_app.
    destruct (gesture_push g st Hg) as [Hh Hp]. unfold run in Hh, Hp.
    cbn [length] in Hlen.
    rewrite pushSnapshot_cases in Hh.
    destruct (Nat.ltb_spec (length (history st)) 20); [|lia].
    destruct (IH (fold_left step (gestureEvents g) st)) as (snaps & E & El & Ep).
    { rewrite Hh, length_app. simpl. lia. }
    eexists (_ :: snaps). rewrite E, Hh, <- app_assoc. cbn [app].
    split; [reflexivity|]. split; [simpl; lia | congruence].
Qed.

(** X17.  As long as the history does not overflow (at most 20 entries in
    all), as many clicks on "undo" as there were gestures put back the canvas
    and the history of before these gestures. *)
Theorem undo_reverts_gestures (gs : list Gesture) (st : State) (t : Z) :
  Forall wellFormed gs ->
  last (history st) = Some (pixels st) ->
  (length (history st) + length gs <= 20)%nat ->
  0 <= t -> prevTriggerUndo st = t ->
  let st1 := run st (concat (map gestureEvents gs)) in
  let st2 := snd (Nat.iter (length gs) pressUndo (t, st1)) in
  pixels st2 = pixels st /\ history st2 = history st.
Proof.
  intros Hall Hlast Hlen Ht Hprev. cbn zeta.
  destruct (gestures_push gs st Hall Hlen) as (snaps & E & El & Ep).
  destruct (pressUndo_iter (length gs) t _ Ht (eq_trans Ep Hprev))
    as (_ & _ & Hh & Hpix).
  assert (1 <= length (history st))%nat as H1.
  { destruct (history st); [discriminate | simpl; lia]. }
  rewrite E, length_app, El in Hh, Hpix.
  replace (length (history st) + length gs
           - Nat.min (length gs) (length (history st) + length gs - 1))%nat
    with (length (history st)) in Hh by lia.
  rewrite take_app_length in Hh.
  split; [|exact Hh].
  destruct gs as [|g gs'].
  - destruct snaps; [|discriminate]. reflexivity.
  - specialize (Hpix ltac:(simpl; lia) ltac:(simpl; lia)).
    rewrite Hh in Hpix. congruence.
Qed.

End Component.

Lemma undo_reverts_gestures_witness :
  let st := mount (browser := plainRenderer) 1 1 0 false in
  let st1 := run st (concat (map gestureEvents
                                 [Clear (browser := plainRenderer) 1;
                                  BucketClick "#ef4444" 5 (mkPoint 0 0);
                                  Stroke BRUSH "#000000" 9 (mkPoint 0 0) []])) in
  let st2 := snd (Nat.iter 3 pressUndo (0, st1)) in
  pixels st2 = pixels st /\ history st2 = history st.
Proof.
  apply (undo_reverts_gestures (browser := plainRenderer)
           [Clear 1; BucketClick "#ef4444" 5 (mkPoint 0 0);
            Stroke BRUSH "#000000" 9 (mkPoint 0 0) []]
           (mount (browser := plainRenderer) 1 1 0 false) 0).
  - repeat constructor; discriminate.
  - reflexivity.
  - simpl. lia.
  - lia.
  - reflexivity.
Defined.

Lemma stroke_draws_chain_and_commits_once_witness :
  run (browser := plainRenderer) (mount (browser := plainRenderer) 1 1 0 false)
      (gestureEvents (Stroke PENCIL "#000000" 5 (mkPoint 0 0)
                             [mkPoint 1 0; mkPoint 1 1]))
  = mkState 1 1 [255; 255; 255; 255] false None
            [[255; 255; 255; 255]; [255; 255; 255; 255]] 0.
Proof.
  apply (stroke_draws_chain_and_commits_once (browser := plainRenderer)
           PENCIL "#000000" 5 (mkPoint 0 0) [mkPoint 1 0; mkPoint 1 1]
           (mount (browser := plainRenderer) 1 1 0 false)).
  discriminate.
Defined.

Lemma gesture_commits_once_witness :
  let st := mount (browser := plainRenderer) 2 2 0 false in
  let st' := run st (gestureEvents
                       (BucketClick (browser := plainRenderer) "#ef4444" 5
                                    (mkPoint 0 0))) in
  history st' = pushSnapshot (history st) (pixels st')
  /\ width st' = width st /\ height st' = height st
  /\ prevTriggerUndo st' = prevTriggerUndo st.
Proof.
  apply (gesture_commits_once (browser := plainRenderer)
           (BucketClick "#ef4444" 5 (mkPoint 0 0))
           (mount (browser := plainRenderer) 2 2 0 false)).
  exact I.
Defined.

Lemma undo_reverts_gesture_witness :
  let st := commit (mount (browser := plainRenderer) 1 1 0 false) [7; 7; 7; 255] in
  let st' := undoEffect 1 (run st (gestureEvents
                                     (Clear (browser := plainRenderer) 1))) in
  pixels st' = [7; 7; 7; 255]
  /\ history st' = [[255; 255; 255; 255]; [7; 7; 7; 255]].
Proof.
  apply (undo_reverts_gesture (browser := plainRenderer) (Clear 1)
           (commit (mount (browser := plainRenderer) 1 1 0 false) [7; 7; 7; 255]) 1).
  - discriminate.
  - reflexivity.
  - discriminate.
  - discriminate.
Defined.

Lemma stray_pointer_events_ignored_witness :
  let st := run (browser := plainRenderer)
              (mount (browser := plainRenderer) 1 1 0 false)
              [PointerDown true PENCIL "#000000" 5 (mkPoint 0 0)] in
  run (browser := plainRenderer) (stopDrawing st)
      [PointerUp; PointerMove PENCIL "#000000" 5 (mkPoint 0 0);
       PointerDown false BRUSH "#000000" 5 (mkPoint 0 0); PointerUp]
  = stopDrawing st.
Proof.
  apply (stray_pointer_events_ignored (browser := plainRenderer)).
  repeat constructor.
Defined.

Lemma idle_bucket_click_commits_witness :
  let st := mount (browser := plainRenderer) 1 1 0 false in
  let st' := startDrawing (browser := plainRenderer) true BUCKET "#ffffff" 5
                          (mkPoint 0 0) st in
  pixels st' = pixels st
  /\ history st' = pushSnapshot (history st) (pixels st)
  /\ length (history st') = 2%nat.
Proof.
  apply (idle_bucket_click_commits (browser := plainRenderer) "#ffffff" 5
           (mkPoint 0 0) (mount (browser := plainRenderer) 1 1 0 false)
           255 255 255).
  right. split; reflexivity.
Defined.

End CanvasMore.

(** ** The application: one undo for each click *)

Module AppMore.

Import Canvas App CanvasFacts.

Section App.

Context {browser : Renderer}.

Lemma act_inStep (app : AppState) (a : Action) : inStep app -> inStep (act app a).
Proof.
  unfold inStep. intros [H0 Hp].
  assert (forall e, (forall t, e <> UndoTrigger t) ->
            prevTriggerUndo (step (surface app) e) = triggerUndo app) as Hstep.
  { intros e Hne. rewrite <- Hp.
    now apply (CanvasMore.step_size (surface app) e). }
  destruct a as [t | c | n | confirmed | | primary pos | pos | | img | img | ];
    cbn [act triggerUndo surface]; try (split; assumption).
  - destruct confirmed; cbn [triggerUndo surface]; [|split; assumption].
    split; [assumption|].
    apply (Hstep (ClearTrigger (triggerClear app + 1))). discriminate.
  - split; [lia|].
    destruct (undoEffect_fresh (triggerUndo app + 1) (surface app)) as [Hs Hl];
      [lia | lia |].
    destruct (Nat.le_gt_cases (length (history (surface app))) 1) as [Hc|Hc].
    + now rewrite Hs.
    + destruct Hl as (prev & _ & ->); [lia|]. reflexivity.
  - split; [assumption|].
    apply (Hstep (PointerDown primary (App.tool (drawingState app))
                              (color (drawingState app))
                              (brushSize (drawingState app)) pos)).
    discriminate.
  - split; [assumption|].
    apply (Hstep (PointerMove (App.tool (drawingState app))
                              (color (drawingState app))
                              (brushSize (drawingState app)) pos)).
    discriminate.
  - split; [assumption|]. apply (Hstep PointerUp). discriminate.
  - split; [assumption|]. unfold undoEffect.
    now rewrite Hp, Z.eqb_refl, orb_true_r.
Qed.

(** X12.  Whatever has happened since the application started, the "Handle
    Undo" effect does nothing when it runs again without a new click on
    "undo" (as it does each time the history changes): a click is handled
    once.  A click itself always carries a trigger that is neither 0 nor the
    recorded one, so it is never skipped. *)
Theorem undo_handled_once_per_click (w h : Z) (d : DrawingState)
    (savedCanvas : bool) (actions : list Action) :
  let app := runApp (start w h d savedCanvas) actions in
  act app UndoEffectRerun = app
  /\ surface (act app UndoClick)
     = undoEffect (triggerUndo app + 1) (surface app)
  /\ triggerUndo app + 1 <> 0
  /\ triggerUndo app + 1 <> prevTriggerUndo (surface app).
Proof.
  cbn zeta.
  assert (inStep (runApp (start w h d savedCanvas) actions)) as [H0 Hp].
  { assert (forall acts app0, inStep app0 -> inStep (fold_left act acts app0))
      as Hrun.
    { induction acts as [|a l IH]; intros app0 Hin; [assumption|].
      cbn [fold_left]. apply IH. now apply act_inStep. }
    apply Hrun. unfold inStep, start, mount.
    destruct savedCanvas; cbn; split; (lia || reflexivity). }
  split; [|split; [reflexivity | split; lia]].
  destruct (runApp (start w h d savedCanvas) actions) as [ds tc tu c].
  cbn [act drawingState triggerClear triggerUndo surface] in *.
  f_equal. unfold undoEffect. now rewrite Hp, Z.eqb_refl, orb_true_r.
Qed.

End App.

Lemma undo_handled_once_per_click_witness :
  let app := runApp (browser := plainRenderer)
               (start (browser := plainRenderer) 1 1 defaultDrawingState false)
               [MouseDown true (mkPoint 0 0); MouseUp; UndoClick;
                ClearClick true; UndoClick] in
  act (browser := plainRenderer) app UndoEffectRerun = app.
Proof.
  exact (proj1 (undo_handled_once_per_click (browser := plainRenderer) 1 1
                  defaultDrawingState false
                  [MouseDown true (mkPoint 0 0); MouseUp; UndoClick;
                   ClearClick true; UndoClick])).
Defined.

End AppMore.

(** ** [convertImageToColoringPage]: what comes out of the cleanup *)

Module GeminiMore.

Import Gemini GeminiFacts.

(** X13.  A text that [convertImageToColoringPage] returns contains [<svg]
    and contains no run of three backticks: no Markdown fence is left. *)
Theorem resolved_svg_has_no_fence (response : Response) (svgText : string) :
  convertImageToColoringPage response = Resolved svgText ->
  includes "<svg" svgText = true /\ includes "```" svgText = false.
Proof.
  unfold convertImageToColoringPage. destruct response as [e|text]; [discriminate|].
  destruct (includes "<svg" (cleanup _)) eqn:E; [|discriminate].
  cbn [negb]. intros H. injection H as <-.
  split; [exact E | apply cleanup_no_fence].
Qed.

Lemma resolved_svg_has_no_fence_witness :
  includes "<svg" " <svg viewBox='0 0 1 1'></svg> " = true
  /\ includes "```" " <svg viewBox='0 0 1 1'></svg> " = false.
Proof.
  apply (resolved_svg_has_no_fence
           (ApiResponse (Some "```xml <svg viewBox='0 0 1 1'></svg> ```"%string))).
  reflexivity.
Defined.

(** X14.  A response whose text contains [<svg] is never rejected: the
    cleanup cannot remove or break the occurrence, and the function returns
    the cleaned text. *)
Theorem svg_response_is_resolved (text : string) :
  includes "<svg" text = true ->
  convertImageToColoringPage (ApiResponse (Some text)) = Resolved (cleanup text).
Proof.
  intros E. unfold convertImageToColoringPage.
  now rewrite (cleanup_keeps_svg text E).
Qed.

Lemma svg_response_is_resolved_witness :
  convertImageToColoringPage (ApiResponse (Some "``````svg<svg/>```svg"%string))
  = Resolved "<svg/>".
Proof.
  apply (svg_response_is_resolved "``````svg<svg/>```svg"). reflexivity.
Defined.

(** X15.  A text without any backtick is returned exactly as it is when it
    contains [<svg], and rejected with the validation error when it does
    not; a response without text is handled as the empty text, and rejected
    in this way. *)
Theorem plain_text_unchanged_or_rejected (text : string) :
  occurs "`" text = false ->
  convertImageToColoringPage (ApiResponse (Some text))
  = (if includes "<svg" text then Resolved text
     else Rejected "Failed to generate valid SVG")
  /\ convertImageToColoringPage (ApiResponse None)
     = Rejected "Failed to generate valid SVG".
Proof.
  intros E. split; [|reflexivity].
  unfold convertImageToColoringPage. rewrite (cleanup_plain text E).
  destruct (includes "<svg" text); reflexivity.
Qed.

Lemma plain_text_unchanged_or_rejected_witness :
  convertImageToColoringPage (ApiResponse (Some "<svg viewBox='0 0 1 1'/>"%string))
  = Resolved "<svg viewBox='0 0 1 1'/>"
  /\ convertImageToColoringPage (ApiResponse None)
     = Rejected "Failed to generate valid SVG".
Proof.
  apply (plain_text_unchanged_or_rejected "<svg viewBox='0 0 1 1'/>").
  reflexivity.
Defined.

(** X16.  The cleanup has nothing left to do on its own result: a text
    that the function returned, given back as the text of a response, is
    returned unchanged. *)
Theorem resolved_svg_is_stable (response : Response) (svgText : string) :
  convertImageToColoringPage response = Resolved svgText ->
  cleanup svgText = svgText
  /\ convertImageToColoringPage (ApiResponse (Some svgText)) = Resolved svgText.
Proof.
  unfold convertImageToColoringPage at 1.
  destruct response as [e|text]; [discriminate|].
  destruct (includes "<svg" (cleanup _)) eqn:E; [|discriminate].
  cbn [negb]. intros H. injection H as <-.
  assert (cleanup (cleanup (match text with Some t => t | None => EmptyString end))
          = cleanup (match text with Some t => t | None => EmptyString end)) as Hc
    by (apply cleanup_fence_free, cleanup_no_fence).
  split; [exact Hc|].
  unfold convertImageToColoringPage. now rewrite Hc, E.
Qed.

Lemma resolved_svg_is_stable_witness :
  cleanup "x<svg/>`xml" = "x<svg/>`xml"%string
  /\ convertImageToColoringPage (ApiResponse (Some "x<svg/>`xml"%string))
     = Resolved "x<svg/>`xml".
Proof.
  apply (resolved_svg_is_stable (ApiResponse (Some "x```<svg/>`xml"%string))).
  reflexivity.
Defined.

End GeminiMore.
